(** * NeuralLog Python SDK: transport, batcher, logger facade, registry
      and adapters

    A shallow embedding of [neurallog_sdk/http/http_client.py],
    [neurallog_sdk/models/*.py], [neurallog_sdk/ai_logger.py],
    [neurallog_sdk/neurallog.py] and [neurallog_sdk/adapters/*.py], with
    the properties of the delivery pipeline proved about it.

    Conventions of the embedding:
    - Python [int] is [Z]; a duration in seconds is an exact rational [Q]
      (the source computes it as the float [ms / 1000]). In the transport,
      where [send] goes on or stops with the quotient, the division also
      gives the [OverflowError] of a quotient beyond the floats
      ([div_1000]); the interval of the batch timer is kept as the exact
      quotient.
    - A Python [dict] with string keys is a [gmap string _]; a dict that is
      shared by reference lives in a heap of dict objects and is named by
      its location. A value held in a dict is plain data, a reference to
      a shared dict object ([Ref]) or an object of some other type
      ([Object]); copying a dict copies the references, not the objects
      they refer to. The mutable objects that are shared are dict
      objects; a shared list would behave alike.
    - [json.dumps] reads the shared objects at the time of the call and
      raises for a value it cannot encode; JSON text is represented by
      the document it encodes ([Dumps]).
    - A [gmap] has no insertion order. Where the order in which Python
      visits a dict shows (the loggers visited by [flush_all], the value
      named in the error of [json.dumps], two custom headers that differ
      in case only), the model visits in the order of the keys, and no
      statement depends on the order.
    - What depends on the installation (the operating system's sleep, the
      headers a new [requests] session starts with) is a parameter,
      [Platform].
    - Every exception of the model derives from [Exception].
    - Methods are state-passing functions; a call either returns a value or
      raises an exception, and the state it leaves behind is kept in both
      cases.
    - The [with self.batch_lock] / [with cls._lock] blocks are entered and
      left within one call, so in this sequential model they do nothing. *)

From stdpp Require Import gmap strings list fin_maps pretty.
From Stdlib Require Import QArith.
From Equations Require Import Equations.

Set Warnings "-register-all".
Local Open Scope string_scope.
Local Open Scope list_scope.
Local Open Scope Z_scope.

(** ** Values *)

(** Locations of objects. *)
Abbreviation loc := positive.

(** A Python value, as far as the SDK and [json.dumps] tell values
    apart: [None], a bool, an int, a string, a list and a dict that
    nobody else holds, a reference to a dict object of the heap, which
    others may hold and mutate, and an object of any other type
    ([datetime], [set], a class of the application, ...), known by the
    name of its type. *)
Inductive value : Type :=
| JNull
| JBool (b : bool)
| JNum (z : Z)
| JStr (s : string)
| JArr (l : list value)
| JObj (o : gmap string value)
| Ref (l : loc)
| Object (type_name : string).

(** A [Dict[str, Any]]. *)
Abbreviation Dict := (gmap string value).

(** [d.update(other)]: the keys of [other] win. *)
Definition dict_update (d other : Dict) : Dict := other ∪ d.

(** The text produced by [json.dumps], kept as the document it encodes. *)
Inductive json_text : Type := Dumps (doc : value).

Definition json_loads (t : json_text) : value := let 'Dumps v := t in v.

(** [str.lower()], for ASCII text. *)
Definition ascii_lower (c : Ascii.ascii) : Ascii.ascii :=
  let n := Ascii.nat_of_ascii c in
  if (65 <=? n)%nat && (n <=? 90)%nat then Ascii.ascii_of_nat (n + 32) else c.

Fixpoint str_lower (s : string) : string :=
  match s with
  | EmptyString => EmptyString
  | String c rest => String (ascii_lower c) (str_lower rest)
  end.

(** ** Exceptions *)

Inductive exc_class : Type :=
| ValueError
| TypeError
| OverflowError
| RequestException
| HTTPError
| ConnectionError
| Timeout
| OtherException (name : string).

(** An exception object: its class, [str(e)] and [e.__cause__]. *)
Inductive exn : Type :=
| Exn (cls : exc_class) (msg : string) (cause : option exn).

Definition exc_cls (e : exn) : exc_class := let 'Exn c _ _ := e in c.
Definition exc_msg (e : exn) : string := let 'Exn _ m _ := e in m.
Definition exc_cause (e : exn) : option exn := let 'Exn _ _ c := e in c.

(** [e.__class__.__name__] *)
Definition class_name (c : exc_class) : string :=
  match c with
  | ValueError => "ValueError"
  | TypeError => "TypeError"
  | OverflowError => "OverflowError"
  | RequestException => "RequestException"
  | HTTPError => "HTTPError"
  | ConnectionError => "ConnectionError"
  | Timeout => "Timeout"
  | OtherException name => name
  end.

(** [isinstance(e, requests.exceptions.RequestException)] *)
Definition is_RequestException (e : exn) : bool :=
  match exc_cls e with
  | RequestException | HTTPError | ConnectionError | Timeout => true
  | _ => false
  end.

(** ** Results and the state-passing monad *)

Inductive Res (A : Type) : Type :=
| Return (a : A)
| Raise (e : exn).
Arguments Return {A} a.
Arguments Raise {A} e.

Definition Py (S A : Type) : Type := S -> Res A * S.

Definition ret {S A} (a : A) : Py S A := fun s => (Return a, s).
Definition raise {S A} (e : exn) : Py S A := fun s => (Raise e, s).
Definition bind {S A B} (m : Py S A) (k : A -> Py S B) : Py S B :=
  fun s => match m s with
           | (Return a, s') => k a s'
           | (Raise e, s') => (Raise e, s')
           end.
(** [try: m  except Exception as e: h e] *)
Definition try_except {S A} (m : Py S A) (h : exn -> Py S A) : Py S A :=
  fun s => match m s with
           | (Return a, s') => (Return a, s')
           | (Raise e, s') => h e s'
           end.
Definition get {S} : Py S S := fun s => (Return s, s).
Definition gets {S A} (f : S -> A) : Py S A := fun s => (Return (f s), s).
Definition modify {S} (f : S -> S) : Py S unit := fun s => (Return tt, f s).
Definition when {S} (b : bool) (m : Py S unit) : Py S unit :=
  if b then m else ret tt.

Notation "'let*' x := m 'in' k" := (bind m (fun x => k))
  (at level 10, x name, m at level 100, k at level 200).
Notation "m >> k" := (bind m (fun _ => k))
  (at level 100, k at level 200, right associativity).

(** An expression that does not touch the state: its value, or the
    exception it raises. *)
Definition lift {S A} (r : Res A) : Py S A := fun s => (r, s).

(** ** json.dumps *)

(** The dict objects that are shared by reference. *)
Abbreviation Heap := (gmap loc Dict).

Definition not_serializable (type_name : string) : exn :=
  Exn TypeError ("Object of type " +:+ type_name +:+ " is not JSON serializable") None.
Definition circular_reference : exn :=
  Exn ValueError "Circular reference detected" None.

(** The elements of a list and the values of a dict, encoded one after
    the other; the first exception ends the encoding. *)
Definition encode_list (enc : value -> Res value) : list value -> Res (list value) :=
  fix go (l : list value) : Res (list value) :=
    match l with
    | [] => Return []
    | x :: rest =>
        match enc x with
        | Raise e => Raise e
        | Return x' =>
            match go rest with
            | Raise e => Raise e
            | Return rest' => Return (x' :: rest')
            end
        end
    end.

Definition encode_dict (enc : value -> Res value) (o : Dict) : Res Dict :=
  map_fold (fun k x (acc : Res Dict) =>
              match acc with
              | Raise e => Raise e
              | Return o' =>
                  match enc x with
                  | Raise e => Raise e
                  | Return x' => Return (<[k := x']> o')
                  end
              end) (Return ∅) o.

(** The document [json.dumps] writes for [v]. The encoder walks through
    [v], reads the dict objects that [v] refers to as they are in the
    heap, and raises at an object it cannot encode and at a dict object
    that contains itself. [fuel] is the number of references it may
    follow, one inside the other: with more of them than the heap has
    dict objects, one object is met twice on the way down. *)
Fixpoint encode (fuel : nat) (h : Heap) (v : value) {struct fuel} : Res value :=
  (fix enc (v : value) : Res value :=
     match v with
     | JNull | JBool _ | JNum _ | JStr _ => Return v
     | JArr l =>
         match encode_list enc l with
         | Raise e => Raise e
         | Return l' => Return (JArr l')
         end
     | JObj o =>
         match encode_dict enc o with
         | Raise e => Raise e
         | Return o' => Return (JObj o')
         end
     | Ref l =>
         match fuel with
         | O => Raise circular_reference
         | S n => encode n h (JObj (default ∅ (h !! l)))
         end
     | Object type_name => Raise (not_serializable type_name)
     end) v.

(** [json.dumps(v)], called when the heap is [h]. *)
Definition json_dumps (h : Heap) (v : value) : Res json_text :=
  match encode (S (size h)) h v with
  | Return doc => Return (Dumps doc)
  | Raise e => Raise e
  end.

(** ** The installation *)

(** What the process finds installed. [os_sleep k secs] is what the
    operating system does when it is asked to suspend the thread for
    [secs] seconds after it has done so [k] times: it does, or it refuses
    with an [OSError]. The two strings are the [User-Agent] and the
    [Accept-Encoding] header of the installed [requests]. *)
Class Platform : Type := mkPlatform {
  os_sleep : nat -> Q -> Res unit;
  requests_user_agent : string;
  requests_accept_encoding : string
}.

(** ** models/neurallog_config.py *)

Record NeuralLogConfig : Type := mkConfig {
  server_url : string;
  namespace : string;
  api_key : option string;
  async_enabled : bool;
  batch_size : Z;
  batch_interval_ms : Z;
  max_retries : Z;
  retry_backoff_ms : Z;
  debug_enabled : bool;
  timeout_ms : Z;
  max_connections : Z;
  headers : gmap string string
}.

Definition default_config : NeuralLogConfig := {|
  server_url := "http://localhost:3030";
  namespace := "default";
  api_key := None;
  async_enabled := true;
  batch_size := 100;
  batch_interval_ms := 5000;
  max_retries := 3;
  retry_backoff_ms := 1000;
  debug_enabled := false;
  timeout_ms := 30000;
  max_connections := 10;
  headers := ∅
|}.

(** ** http/http_client.py *)

(** A [requests.structures.CaseInsensitiveDict]: an entry is stored
    under its lowered key, with the key as it was last written. Header
    names are ASCII. *)
Abbreviation CaseInsensitiveDict := (gmap string (string * string)).

(** [d[key] = v] *)
Definition ci_set (key v : string) (d : CaseInsensitiveDict) : CaseInsensitiveDict :=
  <[str_lower key := (key, v)]> d.

(** [d.get(key)] *)
Definition ci_get (key : string) (d : CaseInsensitiveDict) : option string :=
  snd <$> d !! str_lower key.

(** [d.update(other)] for a plain dict [other]. *)
Definition ci_update (d : CaseInsensitiveDict) (other : gmap string string)
    : CaseInsensitiveDict :=
  map_fold ci_set d other.

(** [requests.utils.default_headers()], the headers of a new session. *)
Definition default_headers {platform : Platform} : CaseInsensitiveDict :=
  ci_set "Connection" "keep-alive"
    (ci_set "Accept" "*/*"
       (ci_set "Accept-Encoding" requests_accept_encoding
          (ci_set "User-Agent" requests_user_agent ∅))).

Record Request : Type := mkRequest {
  req_method : string;
  req_url : string;
  req_data : option json_text;
  req_timeout : Q;
  req_headers : CaseInsensitiveDict
}.

(** What the client reads of a [requests.Response]: the status code, the
    reason phrase and the URL, which go into the message of
    [raise_for_status()], and what [response.json()] does (returns the
    decoded body or raises). *)
Record Response : Type := mkResponse {
  status_code : Z;
  reason : string;
  resp_url : string;
  resp_json : Res value
}.

(** The world outside the process, as seen by the transport: the trace of
    what was done to it so far, oldest first. *)
Inductive event : Type :=
| Requested (r : Request)      (* [session.request(...)] was called *)
| Slept (secs : Q)             (* [time.sleep(secs)] *)
| Printed (line : string).     (* [print(line)] *)

Abbreviation IO := (list event).

Definition requested (ev : event) : option Request :=
  match ev with Requested r => Some r | _ => None end.
Definition slept_for (ev : event) : option Q :=
  match ev with Slept q => Some q | _ => None end.
Definition printed (ev : event) : option string :=
  match ev with Printed l => Some l | _ => None end.

(** The requests issued, the delays and the lines printed so far. *)
Definition issued (io : IO) : list Request := omap requested io.
Definition slept (io : IO) : list Q := omap slept_for io.
Definition stdout (io : IO) : list string := omap printed io.

Definition issue (r : Request) (io : IO) : IO := io ++ [Requested r].
Definition print (line : string) (io : IO) : IO := io ++ [Printed line].
Definition record_sleep (secs : Q) (io : IO) : IO := io ++ [Slept secs].

(** The nanoseconds of [secs] fit the signed 64-bit counter CPython keeps
    durations in. *)
Definition fits_PyTime_t (secs : Q) : bool :=
  (- 2 ^ 63 * Z.pos (Qden secs) <=? Qnum secs * 10 ^ 9)
  && (Qnum secs * 10 ^ 9 <? 2 ^ 63 * Z.pos (Qden secs)).

(** What [time.sleep(secs)] does after [k] sleeps: CPython converts the
    duration to nanoseconds, then refuses a negative one, then asks the
    operating system. *)
Definition sleep_outcome {platform : Platform} (k : nat) (secs : Q) : Res unit :=
  if negb (fits_PyTime_t secs)
  then Raise (Exn OverflowError "timestamp too large to convert to C _PyTime_t" None)
  else if Qnum secs <? 0
  then Raise (Exn ValueError "sleep length must be non-negative" None)
  else os_sleep k secs.

(** [time.sleep(secs)] *)
Definition time_sleep {platform : Platform} (secs : Q) : Py IO unit :=
  fun io =>
    match sleep_outcome (length (slept io)) secs with
    | Return _ => (Return tt, record_sleep secs io)
    | Raise e => (Raise e, io)
    end.

(** The least magnitude that rounds beyond the largest float. *)
Definition float_overflow : Z := 2 ^ 1024 - 2 ^ 970.

(** [n / 1000] for an int [n]: the quotient, or the [OverflowError] of a
    quotient that has no float. *)
Definition div_1000 (n : Z) : Res Q :=
  if 1000 * float_overflow <=? Z.abs n
  then Raise (Exn OverflowError "integer division result too large for a float" None)
  else Return (Qmake n 1000).

(** [response.raise_for_status()] raises for 4xx and 5xx. *)
Definition is_error_status (status : Z) : bool :=
  (400 <=? status) && (status <? 600).

(** The [HTTPError] it raises. *)
Definition http_error (r : Response) : exn :=
  Exn HTTPError
    (pretty (status_code r)
       +:+ (if status_code r <? 500 then " Client Error: " else " Server Error: ")
       +:+ reason r +:+ " for url: " +:+ resp_url r)
    None.

(** How one pass through the [try] block ends. *)
Inductive attempt_result : Type :=
| Returned (d : value)          (* a [return] statement was reached *)
| Caught (e : exn)             (* [except RequestException as e] *)
| Propagated (e : exn).        (* any other exception leaves [send] *)

Definition classify (e : exn) : attempt_result :=
  if is_RequestException e then Caught e else Propagated e.

Record HttpClient : Type := mkHttpClient {
  hc_config : NeuralLogConfig;
  session_headers : CaseInsensitiveDict      (* [self.session.headers] *)
}.

(** [HttpClient.__init__] *)
Definition HttpClient_init {platform : Platform} (config : NeuralLogConfig) : HttpClient :=
  let h0 := ci_update default_headers
              (<["Content-Type" := "application/json"]>
                 (<["Accept" := "application/json"]> ∅)) in
  let h1 := match api_key config with
            | Some k => if bool_decide (k = "") then h0
                        else ci_update h0 (<["X-API-Key" := k]> ∅)
            | None => h0
            end in
  let h2 := if bool_decide (headers config = ∅) then h1
            else ci_update h1 (headers config) in
  {| hc_config := config; session_headers := h2 |}.

Section Transport.

Context {platform : Platform}.

(** The remote end and the network: the outcome of the [k]-th request
    issued over the session (counted from 0), either a response or the
    exception [session.request] raises. *)
Variable session_request : nat -> Request -> Res Response.

Variable self : HttpClient.
Let config := hc_config self.

Variables (method url : string) (data : option json_text).

Definition the_request : Request :=
  {| req_method := method; req_url := url; req_data := data;
     req_timeout := Qmake (timeout_ms config) 1000;
     req_headers := session_headers self |}.

(** The body of the [try] block, given what [session.request] did. *)
Definition attempt_result_of (o : Res Response) : attempt_result :=
  match o with
  | Raise e => classify e
  | Return response =>
      if is_error_status (status_code response)
      then classify (http_error response)
      else if status_code response =? 204 then Returned (JObj ∅)
      else match resp_json response with
           | Return d => Returned d
           | Raise e => classify e
           end
  end.

(** One pass through the [try] block: the arguments of
    [session.request] are evaluated, [timeout_ms / 1000] among them, and
    the request is made. *)
Definition attempt (io : IO) : attempt_result * IO :=
  match div_1000 (timeout_ms config) with
  | Raise e => (classify e, io)
  | Return _ =>
      (attempt_result_of (session_request (length (issued io)) the_request),
       issue the_request io)
  end.

(** [retry_backoff_ms * (2 ** (retries - 1)) / 1000], when it has a
    float. *)
Definition backoff (retries : Z) : Q :=
  Qmake (retry_backoff_ms config * 2 ^ (retries - 1)) 1000.

Definition retry_message (retries : Z) : string :=
  "Retrying request (" +:+ pretty retries +:+ "/"
    +:+ pretty (max_retries config) +:+ ")...".

(** The rest of the [except] block, after [retries += 1]. *)
Definition before_retry (retries : Z) : Py IO unit :=
  if retries <=? max_retries config then
    let* secs := lift (div_1000 (retry_backoff_ms config * 2 ^ (retries - 1))) in
    time_sleep secs >>
    when (debug_enabled config) (modify (print (retry_message retries)))
  else ret tt.

Definition failure_message (e : exn) : string :=
  "Request failed after " +:+ pretty (max_retries config) +:+ " retries: " +:+ exc_msg e.

(** The statements after the [while] loop. *)
Definition after_loop (last_exception : option exn) : Py IO value :=
  match last_exception with
  | Some e =>
      when (debug_enabled config) (modify (print (failure_message e))) >>
      raise e
  | None => raise (Exn TypeError "exceptions must derive from BaseException" None)
  end.

(** The [while retries <= self.config.max_retries] loop. *)
Equations? send_loop (retries : Z) (last_exception : option exn) (io : IO)
  : Res value * IO by wf (Z.to_nat (max_retries config + 1 - retries)) lt :=
  send_loop retries last_exception io :=
    match Z_le_dec retries (max_retries config) with
    | left _ =>
        match attempt io with
        | (Returned d, io1) => (Return d, io1)
        | (Propagated e, io1) => (Raise e, io1)
        | (Caught e, io1) =>
            match before_retry (retries + 1) io1 with
            | (Return _, io2) => send_loop (retries + 1) (Some e) io2
            | (Raise e', io2) => (Raise e', io2)
            end
        end
    | right _ => after_loop last_exception io
    end.
Proof. lia. Qed.

(** [HttpClient.send] *)
Definition send : Py IO value := send_loop 0 None.

End Transport.

(** ** models/log_level.py *)

Inductive LogLevel : Type := DEBUG | INFO | WARNING | ERROR | FATAL.

(** [level.value] *)
Definition level_value (l : LogLevel) : string :=
  match l with
  | DEBUG => "debug"
  | INFO => "info"
  | WARNING => "warning"
  | ERROR => "error"
  | FATAL => "fatal"
  end.

(** ** models/log_entry.py *)

Inductive ExceptionInfo : Type :=
| mkExceptionInfo (type message stack_trace : string)
                  (inner_exception : option ExceptionInfo).

(** [ExceptionInfo.__init__]; [format_exc] is what
    [traceback.format_exc()] returns at the time of the call. *)
Fixpoint ExceptionInfo_init (format_exc : string) (exception : exn) : ExceptionInfo :=
  match exception with
  | Exn c m cause =>
      mkExceptionInfo (class_name c) m format_exc
        match cause with
        | Some inner => Some (ExceptionInfo_init format_exc inner)
        | None => None
        end
  end.

(** [ExceptionInfo.to_dict] *)
Fixpoint ExceptionInfo_to_dict (info : ExceptionInfo) : Dict :=
  match info with
  | mkExceptionInfo type message stack_trace inner =>
      let result : Dict :=
        <["stackTrace" := JStr stack_trace]>
          (<["message" := JStr message]> (<["type" := JStr type]> ∅)) in
      match inner with
      | Some i => <["innerException" := JObj (ExceptionInfo_to_dict i)]> result
      | None => result
      end
  end.

Record LogEntry : Type := mkLogEntry {
  le_id : string;
  le_timestamp : string;
  le_level : LogLevel;
  le_message : string;
  le_data : Dict;
  le_exception : option ExceptionInfo
}.

(** [LogEntry.to_dict] *)
Definition LogEntry_to_dict (entry : LogEntry) : Dict :=
  let result : Dict :=
    <["data" := JObj (le_data entry)]>
      (<["message" := JStr (le_message entry)]>
         (<["level" := JStr (level_value (le_level entry))]>
            (<["timestamp" := JStr (le_timestamp entry)]>
               (<["id" := JStr (le_id entry)]> ∅)))) in
  match le_exception entry with
  | Some info => <["exception" := JObj (ExceptionInfo_to_dict info)]> result
  | None => result
  end.

(** ** The state of the process *)

(** One invocation of [http_client.send(method, url, data)]. *)
Record SendCall : Type := mkSendCall {
  call_method : string;
  call_url : string;
  call_data : option json_text
}.

Record World : Type := mkWorld {
  heap : Heap;                 (* the dict objects that are shared by reference *)
  created : nat;               (* how many [LogEntry] objects were built *)
  calls : list SendCall;       (* the calls made to [http_client.send], oldest first *)
  io : IO
}.

(** Anything with a [send(method, url, data)] method: an [HttpClient], or
    the stand-in a test injects. It acts on the outside world only. *)
Definition HttpSend : Type := string -> string -> option json_text -> Py IO value.

Record AILogger : Type := mkAILogger {
  log_name : string;
  config : NeuralLogConfig;
  http_client : HttpSend;
  context : loc;                    (* [self.context] refers to a dict object *)
  batch_queue : list LogEntry;      (* a FIFO [queue.Queue], head first *)
  batch_timer : option Q            (* the armed [threading.Timer] and its interval *)
}.

Definition with_context (l : loc) (self : AILogger) : AILogger :=
  {| log_name := log_name self; config := config self;
     http_client := http_client self; context := l;
     batch_queue := batch_queue self; batch_timer := batch_timer self |}.
Definition with_batch_queue (q : list LogEntry) (self : AILogger) : AILogger :=
  {| log_name := log_name self; config := config self;
     http_client := http_client self; context := context self;
     batch_queue := q; batch_timer := batch_timer self |}.
Definition with_batch_timer (t : option Q) (self : AILogger) : AILogger :=
  {| log_name := log_name self; config := config self;
     http_client := http_client self; context := context self;
     batch_queue := batch_queue self; batch_timer := t |}.

Definition with_heap (h : Heap) (w : World) : World :=
  {| heap := h; created := created w; calls := calls w; io := io w |}.
Definition with_io (i : IO) (w : World) : World :=
  {| heap := heap w; created := created w; calls := calls w; io := i |}.
Definition record_call (c : SendCall) (w : World) : World :=
  {| heap := heap w; created := created w; calls := calls w ++ [c]; io := io w |}.
Definition count_created (w : World) : World :=
  {| heap := heap w; created := S (created w); calls := calls w; io := io w |}.

(** Run an action of the outside world inside the process. *)
Definition on_io {A} (m : Py IO A) : Py World A :=
  fun w => let '(r, i) := m (io w) in (r, with_io i w).

(** Dict objects. *)
Definition read_dict (l : loc) (w : World) : Dict := default ∅ (heap w !! l).

(** A new dict object holding [d]; nothing else refers to it yet. *)
Definition alloc_dict (d : Dict) : Py World loc :=
  fun w => let l := fresh (dom (heap w)) in (Return l, with_heap (<[l := d]> (heap w)) w).

(** [d.copy()] for the dict object at [l]: a new dict object with the
    same keys, each holding the value the original holds, so that a
    [Ref] in the copy refers to the object the original refers to. *)
Definition dict_copy (l : loc) : Py World loc :=
  fun w => alloc_dict (read_dict l w) w.

(** Any in-place mutation of the dict object at [l]:
    [d[k] = v], [del d[k]], [d.update(..)], [d.clear()], ...; for a dict
    object that another one refers to, this is a mutation of a nested
    value, [outer[k][k'] = v]. *)
Definition dict_mutate (l : loc) (f : Dict -> Dict) (w : World) : World :=
  with_heap (<[l := f (read_dict l w)]> (heap w)) w.

(** The methods of [self] run on the pair of [self] and the world. *)
Abbreviation M := (Py (AILogger * World)).

Definition self_ : M AILogger := gets fst.
Definition update_self (f : AILogger -> AILogger) : M unit :=
  modify (fun s => (f (fst s), snd s)).
Definition on_world {A} (m : Py World A) : M A :=
  fun s => let '(r, w) := m (snd s) in (r, (fst s, w)).

Section Models.

(** What the process cannot determine by itself: the [n]-th call of
    [uuid.uuid4()] and of [datetime.now(timezone.utc).isoformat()], and
    the text [traceback.format_exc()] gives. *)
Variable uuid4 : nat -> string.
Variable utcnow_isoformat : nat -> string.
Variable format_exc : string.

(** [LogEntry.__init__] *)
Definition LogEntry_init (level : LogLevel) (message : string)
    (data : option Dict) (exception : option exn) : Py World LogEntry :=
  fun w =>
    let n := created w in
    (Return {| le_id := uuid4 n;
               le_timestamp := utcnow_isoformat n;
               le_level := level;
               le_message := message;
               le_data := match data with
                          | Some d => if bool_decide (d = ∅) then ∅ else d
                          | None => ∅
                          end;
               le_exception := match exception with
                               | Some e => Some (ExceptionInfo_init format_exc e)
                               | None => None
                               end |},
     count_created w).

End Models.

(** ** ai_logger.py *)

(** [_get_log_url] *)
Definition _get_log_url (self : AILogger) : string :=
  let c := config self in
  if negb (bool_decide (namespace c = "")) && negb (bool_decide (namespace c = "default"))
  then server_url c +:+ "/" +:+ namespace c +:+ "/logs/" +:+ log_name self
  else server_url c +:+ "/logs/" +:+ log_name self.

(** [_get_batch_url] *)
Definition _get_batch_url (self : AILogger) : string :=
  let c := config self in
  if negb (bool_decide (namespace c = "")) && negb (bool_decide (namespace c = "default"))
  then server_url c +:+ "/" +:+ namespace c +:+ "/logs/" +:+ log_name self +:+ "/batch"
  else server_url c +:+ "/logs/" +:+ log_name self +:+ "/batch".

(** [self.http_client.send(method, url, data)] *)
Definition call_send (method url : string) (data : json_text) : M value :=
  let* self := self_ in
  on_world (modify (record_call (mkSendCall method url (Some data)))) >>
  on_world (on_io (http_client self method url (Some data))).

Definition debug_print (line : string) : M unit :=
  let* self := self_ in
  when (debug_enabled (config self)) (on_world (on_io (modify (print line)))).

(** [json.dumps(v)] *)
Definition dumps (v : value) : M json_text :=
  let* w := on_world get in
  lift (json_dumps (heap w) v).

(** [_send_log_entry] *)
Definition _send_log_entry (log_entry : LogEntry) : M unit :=
  try_except
    (let* self := self_ in
     let url := _get_log_url self in
     let* data := dumps (JObj (LogEntry_to_dict log_entry)) in
     call_send "POST" url data >> ret tt)
    (fun e => debug_print ("Error sending log entry: " +:+ exc_msg e)).

(** The [while not self.batch_queue.empty() and len(log_entries) <
    self.config.batch_size] loop of [_send_batch]: what is left of the
    queue, and [log_entries]. *)
Fixpoint drain (batch_size : Z) (queue log_entries : list LogEntry)
    : list LogEntry * list LogEntry :=
  match queue with
  | [] => (queue, log_entries)
  | entry :: rest =>
      if Z.of_nat (length log_entries) <? batch_size
      then drain batch_size rest (log_entries ++ [entry])
      else (queue, log_entries)
  end.

(** [_send_batch] *)
Definition _send_batch : M unit :=
  let* self := self_ in
  match batch_queue self with
  | [] => ret tt
  | _ :: _ =>
      let '(rest, log_entries) := drain (batch_size (config self)) (batch_queue self) [] in
      update_self (with_batch_queue rest) >>
      match log_entries with
      | [] => ret tt
      | _ :: _ =>
          try_except
            (let* self := self_ in
             let url := _get_batch_url self in
             let* data := dumps (JArr (map (fun entry => JObj (LogEntry_to_dict entry))
                                           log_entries)) in
             call_send "POST" url data >> ret tt)
            (fun e => debug_print ("Error sending batch: " +:+ exc_msg e))
      end
  end.

(** [_enqueue_log_entry] *)
Definition _enqueue_log_entry (log_entry : LogEntry) : M unit :=
  update_self (fun self => with_batch_queue (batch_queue self ++ [log_entry]) self) >>
  let* self := self_ in
  if batch_size (config self) <=? Z.of_nat (length (batch_queue self))
  then _send_batch
  else ret tt.

(** [flush] *)
Definition flush : M unit :=
  let* self := self_ in
  if async_enabled (config self) && (1 <? batch_size (config self))
  then _send_batch
  else ret tt.

(** [set_context]; the argument is [None] or a reference to a dict. *)
Definition set_context (context : option loc) : M unit :=
  match context with
  | None => raise (Exn ValueError "Context cannot be None" None)
  | Some l =>
      let* copy := on_world (dict_copy l) in
      update_self (with_context copy)
  end.



Section Logger.

Context {platform : Platform}.
Variable session_request : nat -> Request -> Res Response.
Variable uuid4 : nat -> string.
Variable utcnow_isoformat : nat -> string.
Variable format_exc : string.

(** [AILogger.__init__] *)
Definition AILogger_init (log_name : string) (config : NeuralLogConfig)
    (http_client : option HttpSend) : Py World AILogger :=
  let client := match http_client with
                | Some c => c
                | None => send session_request (HttpClient_init config)
                end in
  let* ctx := alloc_dict ∅ in
  let self := {| log_name := log_name; config := config; http_client := client;
                 context := ctx; batch_queue := []; batch_timer := None |} in
  if async_enabled config && (0 <? batch_interval_ms config)
  then ret (with_batch_timer (Some (Qmake (batch_interval_ms config) 1000)) self)
  else ret self.

(** The merge of [self.context] and [data] in [log]. *)
Definition merged_data (context : Dict) (data : option Dict) : Dict :=
  let merged : Dict := ∅ in
  let merged := if bool_decide (context = ∅) then merged else dict_update merged context in
  match data with
  | Some d => if bool_decide (d = ∅) then merged else dict_update merged d
  | None => merged
  end.

(** [log] *)
Definition log (level : LogLevel) (message : string) (data : option Dict)
    (exception : option exn) : M unit :=
  if bool_decide (message = "")
  then raise (Exn ValueError "Message cannot be empty" None)
  else
    let* self := self_ in
    let* ctx := on_world (gets (read_dict (context self))) in
    let* log_entry :=
      on_world (LogEntry_init uuid4 utcnow_isoformat format_exc level message
                  (Some (merged_data ctx data)) exception) in
    if async_enabled (config self)
    then if 1 <? batch_size (config self)
         then _enqueue_log_entry log_entry
         else _send_log_entry log_entry
    else _send_log_entry log_entry.

Definition debug (message : string) (data : option Dict) (exception : option exn) : M unit :=
  log DEBUG message data exception.
Definition info (message : string) (data : option Dict) (exception : option exn) : M unit :=
  log INFO message data exception.
Definition warning (message : string) (data : option Dict) (exception : option exn) : M unit :=
  log WARNING message data exception.
Definition error (message : string) (data : option Dict) (exception : option exn) : M unit :=
  log ERROR message data exception.
Definition fatal (message : string) (data : option Dict) (exception : option exn) : M unit :=
  log FATAL message data exception.

End Logger.

(** ** neurallog.py *)

(** The class attributes of [NeuralLog], the [AILogger] objects (a logger
    is known by the location of its object) and the rest of the process. *)
Record Runtime : Type := mkRuntime {
  _config : NeuralLogConfig;
  _loggers : gmap string loc;
  _global_context : loc;
  objects : gmap loc AILogger;
  world : World
}.

Definition with_config (c : NeuralLogConfig) (rt : Runtime) : Runtime :=
  {| _config := c; _loggers := _loggers rt; _global_context := _global_context rt;
     objects := objects rt; world := world rt |}.
Definition with_loggers (m : gmap string loc) (rt : Runtime) : Runtime :=
  {| _config := _config rt; _loggers := m; _global_context := _global_context rt;
     objects := objects rt; world := world rt |}.
Definition with_global_context (l : loc) (rt : Runtime) : Runtime :=
  {| _config := _config rt; _loggers := _loggers rt; _global_context := l;
     objects := objects rt; world := world rt |}.
Definition with_objects (o : gmap loc AILogger) (rt : Runtime) : Runtime :=
  {| _config := _config rt; _loggers := _loggers rt; _global_context := _global_context rt;
     objects := o; world := world rt |}.
Definition with_world (w : World) (rt : Runtime) : Runtime :=
  {| _config := _config rt; _loggers := _loggers rt; _global_context := _global_context rt;
     objects := objects rt; world := w |}.

Definition in_world {A} (m : Py World A) : Py Runtime A :=
  fun rt => let '(r, w) := m (world rt) in (r, with_world w rt).

(** A method call on an [AILogger] that is not stored yet. *)
Definition call_on {A} (logger : AILogger) (m : M A) : Py Runtime (A * AILogger) :=
  fun rt =>
    match m (logger, world rt) with
    | (Return a, (logger', w)) => (Return (a, logger'), with_world w rt)
    | (Raise e, (_, w)) => (Raise e, with_world w rt)
    end.

(** A method call on the [AILogger] object at [l]. *)
Definition call_method_of {A} (l : loc) (m : M A) : Py Runtime A :=
  fun rt =>
    match objects rt !! l with
    | Some logger =>
        let '(r, (logger', w)) := m (logger, world rt) in
        (r, with_objects (<[l := logger']> (objects rt)) (with_world w rt))
    | None => (Raise (Exn (OtherException "ReferenceError") "no such object" None), rt)
    end.

(** A new [AILogger] object. *)
Definition alloc_object (logger : AILogger) : Py Runtime loc :=
  fun rt => let l := fresh (dom (objects rt)) in
            (Return l, with_objects (<[l := logger]> (objects rt)) rt).

(** [for x in xs: body x] *)
Fixpoint for_each {S A} (xs : list A) (body : A -> Py S unit) : Py S unit :=
  match xs with
  | [] => ret tt
  | x :: rest => body x >> for_each rest body
  end.

Section Registry.

Context {platform : Platform}.
Variable session_request : nat -> Request -> Res Response.

(** [NeuralLog.configure] *)
Definition configure (config : option NeuralLogConfig) : Py Runtime unit :=
  match config with
  | None => raise (Exn ValueError "Config cannot be None" None)
  | Some c => modify (with_config c)
  end.

(** [NeuralLog.get_config] *)
Definition get_config : Py Runtime NeuralLogConfig := gets _config.

(** [NeuralLog.get_logger] *)
Definition get_logger (log_name : string) : Py Runtime loc :=
  if bool_decide (log_name = "")
  then raise (Exn ValueError "Log name cannot be empty" None)
  else
    let* cls := get in
    match _loggers cls !! log_name with
    | None =>
        let* logger := in_world (AILogger_init session_request log_name (_config cls) None) in
        let* cls := get in
        let* logger :=
          if bool_decide (read_dict (_global_context cls) (world cls) = ∅)
          then ret logger
          else let* r := call_on logger (set_context (Some (_global_context cls))) in
               ret (snd r) in
        let* l := alloc_object logger in
        modify (fun rt => with_loggers (<[log_name := l]> (_loggers rt)) rt)
    | Some _ => ret tt
    end >>
    let* cls := get in
    match _loggers cls !! log_name with
    | Some l => ret l
    | None => raise (Exn (OtherException "KeyError") log_name None)
    end.

(** [NeuralLog.set_global_context]; the loggers are visited in the order
    of [map_to_list], which only decides where the copies are placed. *)
Definition set_global_context (context : option loc) : Py Runtime unit :=
  match context with
  | None => raise (Exn ValueError "Context cannot be None" None)
  | Some c =>
      let* copy := in_world (dict_copy c) in
      modify (with_global_context copy) >>
      let* cls := get in
      for_each (map_to_list (_loggers cls))
        (fun entry => call_method_of (snd entry) (set_context (Some (_global_context cls))))
  end.

(** [NeuralLog.flush_all] *)
Definition flush_all : Py Runtime unit :=
  let* cls := get in
  for_each (map_to_list (_loggers cls)) (fun entry => call_method_of (snd entry) flush).

End Registry.

(** The process right after [neurallog.py] is imported: the default
    configuration, no logger, and an empty global context. *)
Definition initial_world : World :=
  {| heap := {[ 1%positive := ∅ ]}; created := 0; calls := [];
     io := [] |}.

Definition initial_runtime : Runtime :=
  {| _config := default_config; _loggers := ∅; _global_context := 1%positive;
     objects := ∅; world := initial_world |}.

(** ** Notions used to state the properties *)

(** The [k]-th request after [io] ends in [except RequestException as e]. *)
Definition fails_with (session_request : nat -> Request -> Res Response)
    (self : HttpClient) (method url : string) (data : option json_text)
    (io : IO) (k : nat) (e : exn) : Prop :=
  attempt_result_of
    (session_request (length (issued io) + k)%nat (the_request self method url data))
  = Caught e.


(** What the [n]-th failed attempt (counted from 1) adds to the trace when
    retries remain: the request, then the delay, then the debug line. *)
Definition failed_round (self : HttpClient) (method url : string)
    (data : option json_text) (n : Z) : list event :=
  Requested (the_request self method url data)
    :: Slept (backoff self n)
    :: (if debug_enabled (hc_config self) then [Printed (retry_message self n)] else []).

(** The rounds of the failed attempts [first + 1], ..., [first + count]. *)
Fixpoint failed_rounds (self : HttpClient) (method url : string)
    (data : option json_text) (first : Z) (count : nat) : list event :=
  match count with
  | O => []
  | S c => failed_round self method url data (first + 1)
             ++ failed_rounds self method url data (first + 1) c
  end.

(** [last_exception] after [count] more failed attempts. *)
Definition last_after (last : option exn) (fail : nat -> exn) (count : nat) : option exn :=
  match count with O => last | S c => Some (fail c) end.

(** What the last failed attempt adds to the trace, and the statements
    after the loop. *)
Definition final_round (self : HttpClient) (method url : string)
    (data : option json_text) (e : exn) : list event :=
  Requested (the_request self method url data)
    :: (if debug_enabled (hc_config self) then [Printed (failure_message self e)] else []).

(** [outer] is a DeliveryFailed error that wraps [inner]. *)
Definition DeliveryFailed_wrapping (outer inner : exn) : Prop :=
  exc_cls outer = OtherException "DeliveryFailed" ∧ exc_cause outer = Some inner.

(** [timeout_ms / 1000] has a float, so [session.request] can be
    called. *)
Definition timeout_has_float (c : NeuralLogConfig) : Prop :=
  div_1000 (timeout_ms c) = Return (Qmake (timeout_ms c) 1000).

(** The delay before retry [n] (counted from 1) of a call that starts at
    trace [io] is slept: the delay has a float, [time.sleep] accepts it
    and the operating system grants it. *)
Definition delay_granted {platform : Platform} (self : HttpClient) (io : IO) (n : Z) : Prop :=
  div_1000 (retry_backoff_ms (hc_config self) * 2 ^ (n - 1)) = Return (backoff self n)
  ∧ sleep_outcome (length (slept io) + Z.to_nat (n - 1)) (backoff self n) = Return tt.

(** The same for the [k]-th delay after trace [io] (counted from 0),
    when it is the delay before retry [first + k + 1]. *)
Definition granted {platform : Platform} (self : HttpClient) (io : IO) (first : Z) (k : nat)
    : Prop :=
  div_1000 (retry_backoff_ms (hc_config self) * 2 ^ (first + Z.of_nat k + 1 - 1))
  = Return (backoff self (first + Z.of_nat k + 1))
  ∧ sleep_outcome (length (slept io) + k) (backoff self (first + Z.of_nat k + 1)) = Return tt.

(** The delay before retry [n] is refused with [e]: its quotient has no
    float, or [time.sleep] or the operating system refuses it. *)
Definition delay_refused {platform : Platform} (self : HttpClient) (io : IO) (n : Z) (e : exn)
    : Prop :=
  div_1000 (retry_backoff_ms (hc_config self) * 2 ^ (n - 1)) = Raise e
  ∨ (div_1000 (retry_backoff_ms (hc_config self) * 2 ^ (n - 1)) = Return (backoff self n)
     ∧ sleep_outcome (length (slept io) + Z.to_nat (n - 1)) (backoff self n) = Raise e).

(** The retry policy can run to its end from trace [io]: there is at
    least one attempt, the timeout has a float, and every delay is
    granted. *)
Definition retry_policy_runs {platform : Platform} (self : HttpClient) (io : IO) : Prop :=
  0 <= max_retries (hc_config self)
  ∧ timeout_has_float (hc_config self)
  ∧ forall n, 1 <= n <= max_retries (hc_config self) -> delay_granted self io n.

(** The world after [self.http_client.send("POST", url, data)] was called
    inside a [try] whose handler prints [label] and the error in debug
    mode. *)
Definition after_send (self : AILogger) (label url : string) (data : json_text)
    (w : World) : World :=
  let w1 := record_call (mkSendCall "POST" url (Some data)) w in
  match http_client self "POST" url (Some data) (io w1) with
  | (Return _, i) => with_io i w1
  | (Raise e, i) =>
      with_io (if debug_enabled (config self) then print (label +:+ exc_msg e) i else i) w1
  end.

(** The body of a single-entry POST and of a batch POST, as
    [json.dumps] gives it when the heap is [h]. *)
Definition entry_body (h : Heap) (entry : LogEntry) : Res json_text :=
  json_dumps h (JObj (LogEntry_to_dict entry)).
Definition batch_body (h : Heap) (entries : list LogEntry) : Res json_text :=
  json_dumps h (JArr (map (fun entry => JObj (LogEntry_to_dict entry)) entries)).

(** The world after a delivery inside such a [try]: when [json.dumps]
    gave the body, [send] was called with it; when it raised, nothing
    was sent and the error is printed in debug mode. *)
Definition after_delivery (self : AILogger) (label url : string) (body : Res json_text)
    (w : World) : World :=
  match body with
  | Return data => after_send self label url data w
  | Raise e =>
      with_io (if debug_enabled (config self) then print (label +:+ exc_msg e) (io w)
               else io w) w
  end.

(** The call raises. *)
Definition raises {S A} (m : Py S A) (s : S) : Prop :=
  exists e s', m s = (Raise e, s').

(** Where [log] hands the entry it built. *)
Definition route (config : NeuralLogConfig) (log_entry : LogEntry) : M unit :=
  if async_enabled config
  then if 1 <? batch_size config
       then _enqueue_log_entry log_entry
       else _send_log_entry log_entry
  else _send_log_entry log_entry.

(** A sequence of in-place mutations of the dict object at [l]. *)
Fixpoint mutate_all (l : loc) (mutations : list (Dict -> Dict)) (w : World) : World :=
  match mutations with
  | [] => w
  | f :: rest => mutate_all l rest (dict_mutate l f w)
  end.

(** ** Concrete scenarios *)

Definition e_down : exn := Exn ConnectionError "connection refused" None.

(** A server that cannot be reached. *)
Definition always_down : nat -> Request -> Res Response := fun _ _ => Raise e_down.

Definition created_doc : value := JObj {[ "status" := JStr "created" ]}.


(** An installation whose operating system grants every sleep. *)
Definition test_platform : Platform :=
  {| os_sleep := fun _ _ => Return tt;
     requests_user_agent := "python-requests/2.31.0";
     requests_accept_encoding := "gzip, deflate" |}.

(** An installation whose operating system refuses to sleep. *)
Definition sleepless_platform : Platform :=
  {| os_sleep := fun _ _ => Raise (Exn (OtherException "OSError")
                                    "[Errno 22] Invalid argument" None);
     requests_user_agent := "python-requests/2.31.0";
     requests_accept_encoding := "gzip, deflate" |}.

Definition default_client : HttpClient := @HttpClient_init test_platform default_config.

(** A configuration whose retry count is negative. *)
Definition negative_retries_config : NeuralLogConfig :=
  {| server_url := "http://localhost:3030"; namespace := "default"; api_key := None;
     async_enabled := true; batch_size := 100; batch_interval_ms := 5000;
     max_retries := -1; retry_backoff_ms := 1000; debug_enabled := false;
     timeout_ms := 30000; max_connections := 10; headers := ∅ |}.

(** A configuration whose first delay is 10^10 seconds. *)
Definition overlong_backoff_config : NeuralLogConfig :=
  {| server_url := "http://localhost:3030"; namespace := "default"; api_key := None;
     async_enabled := true; batch_size := 100; batch_interval_ms := 5000;
     max_retries := 1; retry_backoff_ms := 10 ^ 13; debug_enabled := false;
     timeout_ms := 30000; max_connections := 10; headers := ∅ |}.

(** A configuration with a custom header written in lower case. *)
Definition plain_text_config : NeuralLogConfig :=
  {| server_url := "http://localhost:3030"; namespace := "default"; api_key := None;
     async_enabled := true; batch_size := 100; batch_interval_ms := 5000;
     max_retries := 3; retry_backoff_ms := 1000; debug_enabled := false;
     timeout_ms := 30000; max_connections := 10;
     headers := {[ "content-type" := "text/plain" ]} |}.

(** A client configured for a single attempt. *)
Definition single_attempt_config : NeuralLogConfig :=
  {| server_url := "http://localhost:3030"; namespace := "default"; api_key := None;
     async_enabled := true; batch_size := 100; batch_interval_ms := 5000;
     max_retries := 0; retry_backoff_ms := 1000; debug_enabled := false;
     timeout_ms := 30000; max_connections := 10; headers := ∅ |}.

(** A stand-in client that accepts every call, and one that always fails. *)
Definition accepting_client : HttpSend := fun _ _ _ io => (Return created_doc, io).
Definition failing_client : HttpSend := fun _ _ _ io => (Raise e_down, io).

(** The configurations of tests/test_ai_logger.py. *)
Definition sync_config : NeuralLogConfig :=
  {| server_url := "https://logs.example.com"; namespace := "test";
     api_key := Some "test-api-key"; async_enabled := false; batch_size := 100;
     batch_interval_ms := 5000; max_retries := 3; retry_backoff_ms := 1000;
     debug_enabled := false; timeout_ms := 30000; max_connections := 10; headers := ∅ |}.

Definition batch_config : NeuralLogConfig :=
  {| server_url := "https://logs.example.com"; namespace := "test";
     api_key := Some "test-api-key"; async_enabled := true; batch_size := 2;
     batch_interval_ms := 100; max_retries := 3; retry_backoff_ms := 1000;
     debug_enabled := false; timeout_ms := 30000; max_connections := 10; headers := ∅ |}.


Definition test_uuid4 (n : nat) : string := "id-" +:+ pretty n.
Definition test_now (n : nat) : string := "2025-01-01T00:00:0" +:+ pretty n +:+ "+00:00".
Definition test_format_exc : string := "NoneType: None".

Definition test_logger (config : NeuralLogConfig) (client : HttpSend)
    (queue : list LogEntry) : AILogger :=
  {| log_name := "test-logger"; config := config; http_client := client;
     context := 1%positive; batch_queue := queue; batch_timer := None |}.

Definition message_entry (n : nat) (message : string) : LogEntry :=
  {| le_id := test_uuid4 n; le_timestamp := test_now n; le_level := INFO;
     le_message := message; le_data := ∅; le_exception := None |}.

Definition entry1 : LogEntry := message_entry 0 "Message 1".
Definition entry2 : LogEntry := message_entry 1 "Message 2".
Definition entry3 : LogEntry := message_entry 2 "Message 3".

(** The scenario of the context merge: the instance context is
    [{"a": 1}] and the caller passes [{"a": 2, "b": 3}]. *)
Definition context_a1 : Dict := {[ "a" := JNum 1 ]}.
Definition data_a2_b3 : Dict := <["a" := JNum 2]> {[ "b" := JNum 3 ]}.

Definition world_with_context (d : Dict) : World :=
  {| heap := {[ 1%positive := d ]}; created := 0; calls := []; io := [] |}.

(** A logger whose transport is the real [HttpClient], facing the
    unreachable server. *)
Definition unreachable_logger : AILogger :=
  test_logger sync_config
    (@send test_platform always_down (@HttpClient_init test_platform sync_config)) [].

(** The scenario of the context copy: the caller holds the dict object at
    location 2 and passes it to [set_context]. *)
Definition caller_dict : Dict := {[ "app" := JStr "test-app" ]}.

Definition world_with_caller_dict : World :=
  {| heap := <[2%positive := caller_dict]> {[ 1%positive := ∅ ]};
     created := 0; calls := []; io := [] |}.

(** [d["env"] = "test"] *)
Definition set_env (d : Dict) : Dict := <["env" := JStr "test"]> d.


(** ** More notions used to state properties *)

(** The sum of a list of delays, in seconds. *)
Definition total_delay (delays : list Q) : Q := foldr Qplus 0%Q delays.

(** [for _ in range(n): m] *)
Fixpoint repeat_call (n : nat) (m : M unit) : M unit :=
  match n with
  | O => ret tt
  | S k => m >> repeat_call k m
  end.

(** The call [_send_batch] makes for a batch of entries when the heap is
    [h], if any: a batch that [json.dumps] cannot encode is not sent. *)
Definition batch_call (self : AILogger) (h : Heap) (entries : list LogEntry)
    : option SendCall :=
  match batch_body h entries with
  | Return body => Some (mkSendCall "POST" (_get_batch_url self) (Some body))
  | Raise _ => None
  end.

(** The number of inner exceptions below [info]. *)
Fixpoint chain_length (info : ExceptionInfo) : nat :=
  match info with
  | mkExceptionInfo _ _ _ (Some inner) => S (chain_length inner)
  | mkExceptionInfo _ _ _ None => O
  end.

(** The registry is well formed: every registered name refers to a logger
    object, and that logger carries the name. *)
Definition registry_wf (rt : Runtime) : Prop :=
  forall name l, _loggers rt !! name = Some l ->
    exists logger, objects rt !! l = Some logger /\ log_name logger = name.

(** The state of the broadcast loop of [set_global_context], where [c] is
    the dict passed in and [g] the new global context: both hold [d], the
    registered loggers exist under their names, and the loggers visited
    hold [d] in a context of their own. *)
Definition broadcast_state (c g : loc) (d : Dict) (registered : gmap string loc)
    (todo done : list (string * loc)) (rt : Runtime) : Prop :=
  _loggers rt = registered
  /\ _global_context rt = g
  /\ heap (world rt) !! g = Some d
  /\ heap (world rt) !! c = Some d
  /\ (forall x, x ∈ todo ++ done ->
        exists logger, objects rt !! x.2 = Some logger /\ log_name logger = x.1)
  /\ (forall x, x ∈ done ->
        exists logger, objects rt !! x.2 = Some logger
                       /\ context logger <> c
                       /\ heap (world rt) !! context logger = Some d).

(** A logger whose queue one [flush] empties: the queue is empty already,
    or the logger batches and holds at most one batch. *)
Definition flushable (logger : AILogger) : Prop :=
  batch_queue logger = []
  \/ (async_enabled (config logger) = true
      /\ 1 < batch_size (config logger)
      /\ Z.of_nat (length (batch_queue logger)) <= batch_size (config logger)).

(** The state of the loop of [flush_all]: the registered loggers exist
    under their names and are flushable, and the loggers visited have an
    empty queue. *)
Definition flush_all_state (registered : gmap string loc)
    (todo done : list (string * loc)) (rt : Runtime) : Prop :=
  _loggers rt = registered
  /\ (forall x, x ∈ todo ++ done ->
        exists logger, objects rt !! x.2 = Some logger
                       /\ log_name logger = x.1 /\ flushable logger)
  /\ (forall x, x ∈ done ->
        exists logger, objects rt !! x.2 = Some logger /\ batch_queue logger = []).

(** ** adapters/standard_logging.py *)

(** The levels of Python's [logging] module. *)
Definition logging_CRITICAL : Z := 50.
Definition logging_ERROR : Z := 40.
Definition logging_WARNING : Z := 30.
Definition logging_INFO : Z := 20.
Definition logging_DEBUG : Z := 10.
Definition logging_NOTSET : Z := 0.

(** What the adapter reads of a [logging.LogRecord]. [rec_exc_info] is
    [None] for a false [exc_info] and otherwise holds [exc_info[1]];
    [rec_data] is the [data] attribute when the record has one, a dict
    being given as the [JObj] of the entries it holds when [emit] runs;
    [rec_others] holds the entries of [record.__dict__] besides the
    attributes above, all of which the adapter skips by name. *)
Record LogRecord : Type := mkLogRecord {
  rec_name : value;
  rec_pathname : value;
  rec_lineno : value;
  rec_funcName : value;
  rec_threadName : value;
  rec_processName : value;
  rec_levelno : Z;
  rec_exc_info : option (option exn);
  rec_data : option value;
  rec_others : Dict
}.

(** The attribute names [_extract_data] does not copy. *)
Definition reserved_attributes : list string :=
  ["args"; "asctime"; "created"; "exc_info"; "exc_text";
   "filename"; "funcName"; "levelname"; "levelno"; "lineno";
   "module"; "msecs"; "message"; "msg"; "name"; "pathname";
   "process"; "processName"; "relativeCreated"; "stack_info";
   "thread"; "threadName"; "data"].

(** A Python [x or y] on optional strings, and the truth of [x]. *)
Definition truthy (s : option string) : bool :=
  match s with
  | Some v => negb (bool_decide (v = ""))
  | None => false
  end.

(** The condition under which the adapters build a configuration of
    their own. *)
Definition uses_custom_config (url ns key : option string)
    (async : bool) (size interval_ms : Z) : bool :=
  truthy url || truthy ns || truthy key || negb async
  || negb (size =? 100) || negb (interval_ms =? 5000).

(** The [NeuralLogConfig(...)] the adapters build; the fields they do not
    pass take the defaults of the dataclass. *)
Definition custom_config (global : NeuralLogConfig) (url ns key : option string)
    (async : bool) (size interval_ms : Z) : NeuralLogConfig :=
  {| server_url := if truthy url then default "" url else server_url global;
     namespace := if truthy ns then default "" ns else namespace global;
     api_key := if truthy key then key else api_key global;
     async_enabled := async;
     batch_size := size;
     batch_interval_ms := interval_ms;
     max_retries := 3;
     retry_backoff_ms := 1000;
     debug_enabled := false;
     timeout_ms := 30000;
     max_connections := 10;
     headers := ∅ |}.

Module NeuralLogHandler.

Record Handler : Type := mkHandler {
  logger : loc;        (* [self.logger] *)
  level : Z            (* the level given to [logging.Handler.__init__] *)
}.

(** [_convert_level] *)
Definition _convert_level (level : Z) : LogLevel :=
  if logging_CRITICAL <=? level then FATAL
  else if logging_ERROR <=? level then ERROR
  else if logging_WARNING <=? level then WARNING
  else if logging_INFO <=? level then INFO
  else DEBUG.

(** The standard fields [_extract_data] starts from. *)
Definition standard_fields (record : LogRecord) : Dict :=
  <["process" := rec_processName record]>
    (<["thread" := rec_threadName record]>
       (<["function" := rec_funcName record]>
          (<["line" := rec_lineno record]>
             (<["file" := rec_pathname record]>
                (<["logger" := rec_name record]> ∅))))).

(** [_extract_data] *)
Definition _extract_data (record : LogRecord) : Dict :=
  let data : Dict := standard_fields record in
  let data := match rec_data record with
              | Some (JObj d) => dict_update data d
              | _ => data
              end in
  dict_update data
    (filter (fun entry : string * value => entry.1 ∉ reserved_attributes) (rec_others record)).

Section Handler.

Context {platform : Platform}.
Variable session_request : nat -> Request -> Res Response.
Variable uuid4 : nat -> string.
Variable utcnow_isoformat : nat -> string.
Variable format_exc : string.

(** [self.format(record)]: the formatter in use decides the text, and may
    raise. *)
Variable format : LogRecord -> Res string.

(** [__init__] *)
Definition init (log_name : string) (url ns key : option string)
    (async : bool) (size interval_ms : Z) (level : Z) : Py Runtime Handler :=
  if uses_custom_config url ns key async size interval_ms
  then
    let* global := get_config in
    let config := custom_config global url ns key async size interval_ms in
    let* logger := in_world (AILogger_init session_request log_name config None) in
    let* l := alloc_object logger in
    ret {| logger := l; level := level |}
  else
    let* l := get_logger session_request log_name in
    ret {| logger := l; level := level |}.

(** [emit]. [self.handleError(record)] reports to [sys.stderr], which is
    outside the state modelled here, and returns. *)
Definition emit (self : Handler) (record : LogRecord) : Py Runtime unit :=
  try_except
    (let level := _convert_level (rec_levelno record) in
     let* message := (fun rt => (format record, rt)) in
     let exception := match rec_exc_info record with
                      | Some exc => exc
                      | None => None
                      end in
     let data := _extract_data record in
     call_method_of (logger self)
       (log uuid4 utcnow_isoformat format_exc level message (Some data) exception))
    (fun _ => ret tt).

(** [flush] *)
Definition flush (self : Handler) : Py Runtime unit :=
  call_method_of (logger self) flush.

(** [close]; [logging.Handler.close] only unregisters the handler from
    the [logging] module. *)
Definition close (self : Handler) : Py Runtime unit := flush self.

End Handler.

End NeuralLogHandler.

(** ** adapters/loguru_adapter.py *)

(** What the adapter reads of a Loguru message: [message.record]. The
    exception is [None] when [record["exception"]] is false and otherwise
    holds its [value]. *)
Record LoguruRecord : Type := mkLoguruRecord {
  lr_level_name : string;
  lr_message : string;
  lr_exception : option (option exn);
  lr_name : value;
  lr_file_path : value;
  lr_line : value;
  lr_function : value;
  lr_thread_name : value;
  lr_process_name : value;
  lr_extra : Dict
}.

(** [isinstance(e, ImportError)] *)
Definition is_ImportError (e : exn) : bool :=
  match exc_cls e with
  | OtherException name =>
      bool_decide (name = "ImportError") || bool_decide (name = "ModuleNotFoundError")
  | _ => false
  end.

Module NeuralLogSink.

(** [import loguru] *)
Definition import_loguru (loguru_installed : bool) : Res unit :=
  if loguru_installed then Return tt
  else Raise (Exn (OtherException "ModuleNotFoundError") "No module named 'loguru'" None).

(** [loguru.Message]: the package has no such attribute when it runs;
    the name exists in its type stubs only. *)
Definition loguru_Message : Res unit :=
  Raise (Exn (OtherException "AttributeError")
           "module 'loguru' has no attribute 'Message'" None).

(** The body of the module, run when it is imported: the value
    [LOGURU_AVAILABLE] gets, or the exception that ends the import. *)
Definition import_module (loguru_installed : bool) : Res bool :=
  match (match import_loguru loguru_installed with
         | Return _ => match loguru_Message with
                       | Return _ => Return true
                       | Raise e => Raise e
                       end
         | Raise e => Raise e
         end) with
  | Return available => Return available
  | Raise e => if is_ImportError e then Return false else Raise e
  end.

Record Sink : Type := mkSink {
  logger : loc         (* [self.logger] *)
}.

(** [_convert_level] *)
Definition _convert_level (level_name : string) : LogLevel :=
  let level_name := str_lower level_name in
  if bool_decide (level_name = "critical") || bool_decide (level_name = "fatal") then FATAL
  else if bool_decide (level_name = "error") then ERROR
  else if bool_decide (level_name = "warning") then WARNING
  else if bool_decide (level_name = "info") then INFO
  else DEBUG.

(** The standard fields [_extract_data] starts from. *)
Definition standard_fields (record : LoguruRecord) : Dict :=
  <["process" := lr_process_name record]>
    (<["thread" := lr_thread_name record]>
       (<["function" := lr_function record]>
          (<["line" := lr_line record]>
             (<["file" := lr_file_path record]>
                (<["logger" := lr_name record]> ∅))))).

(** [_extract_data] *)
Definition _extract_data (record : LoguruRecord) : Dict :=
  let data : Dict := standard_fields record in
  dict_update data (lr_extra record).

Section Sink.

Context {platform : Platform}.
Variable session_request : nat -> Request -> Res Response.
Variable uuid4 : nat -> string.
Variable utcnow_isoformat : nat -> string.
Variable format_exc : string.

(** The module's global [LOGURU_AVAILABLE], set by [import_module]. *)
Variable LOGURU_AVAILABLE : bool.

(** [__init__] *)
Definition init (log_name : string) (url ns key : option string)
    (async : bool) (size interval_ms : Z) : Py Runtime Sink :=
  if negb LOGURU_AVAILABLE
  then raise (Exn (OtherException "ImportError")
                "Loguru is not installed. Please install it with 'pip install loguru'." None)
  else if uses_custom_config url ns key async size interval_ms
  then
    let* global := get_config in
    let config := custom_config global url ns key async size interval_ms in
    let* logger := in_world (AILogger_init session_request log_name config None) in
    let* l := alloc_object logger in
    ret {| logger := l |}
  else
    let* l := get_logger session_request log_name in
    ret {| logger := l |}.

(** [__call__] *)
Definition call (self : Sink) (record : LoguruRecord) : Py Runtime unit :=
  let level := _convert_level (lr_level_name record) in
  let message_text := lr_message record in
  let exception := match lr_exception record with
                   | Some exc => exc
                   | None => None
                   end in
  let data := _extract_data record in
  call_method_of (logger self)
    (log uuid4 utcnow_isoformat format_exc level message_text (Some data) exception).

(** [flush] *)
Definition flush (self : Sink) : Py Runtime unit :=
  call_method_of (logger self) flush.

End Sink.

(** [from neurallog_sdk.adapters.loguru_adapter import NeuralLogSink]
    followed by [NeuralLogSink(...)]. *)
Definition import_and_init {platform : Platform}
    (session_request : nat -> Request -> Res Response) (loguru_installed : bool)
    (log_name : string) (url ns key : option string) (async : bool) (size interval_ms : Z)
    : Py Runtime Sink :=
  let* LOGURU_AVAILABLE := lift (import_module loguru_installed) in
  init session_request LOGURU_AVAILABLE log_name url ns key async size interval_ms.

End NeuralLogSink.

(** adapters/__init__.py: the names the package exports, or the exception
    that ends its import. *)
Definition adapters_import (loguru_installed : bool) : Res (list string) :=
  match NeuralLogSink.import_module loguru_installed with
  | Return _ => Return ["NeuralLogHandler"; "NeuralLogSink"]
  | Raise e => if is_ImportError e then Return ["NeuralLogHandler"] else Raise e
  end.

(** The rank of a level, [DEBUG] lowest. *)
Definition severity (l : LogLevel) : Z :=
  match l with
  | DEBUG => 0
  | INFO => 1
  | WARNING => 2
  | ERROR => 3
  | FATAL => 4
  end.

(** An exception followed by its causes, and the same for the record
    built from it. *)
Fixpoint cause_chain (e : exn) : list exn :=
  match e with
  | Exn _ _ cause => e :: match cause with
                          | Some c => cause_chain c
                          | None => []
                          end
  end.

Fixpoint info_chain (info : ExceptionInfo) : list ExceptionInfo :=
  match info with
  | mkExceptionInfo _ _ _ inner => info :: match inner with
                                           | Some i => info_chain i
                                           | None => []
                                           end
  end.

Definition info_type (info : ExceptionInfo) : string :=
  let 'mkExceptionInfo type _ _ _ := info in type.
Definition info_message (info : ExceptionInfo) : string :=
  let 'mkExceptionInfo _ message _ _ := info in message.
Definition info_stack_trace (info : ExceptionInfo) : string :=
  let 'mkExceptionInfo _ _ stack_trace _ := info in stack_trace.

(** ** More concrete scenarios *)

(** A server that answers 204 with a body that is not JSON. *)
Definition no_content_response : Response :=
  {| status_code := 204; reason := "No Content";
     resp_url := "http://localhost:3030/logs/app";
     resp_json := Raise (Exn (OtherException "JSONDecodeError") "Expecting value" None) |}.
Definition no_content_server : nat -> Request -> Res Response :=
  fun _ _ => Return no_content_response.

(** A server that answers 404 to everything. *)
Definition not_found_response : Response :=
  {| status_code := 404; reason := "Not Found";
     resp_url := "http://localhost:3030/logs/app"; resp_json := Return JNull |}.
Definition not_found_server : nat -> Request -> Res Response :=
  fun _ _ => Return not_found_response.

(** A session that fails with something else than a [RequestException]. *)
Definition e_runtime : exn := Exn (OtherException "RuntimeError") "boom" None.
Definition broken_session : nat -> Request -> Res Response := fun _ _ => Raise e_runtime.

Definition app_url : string := "http://localhost:3030/logs/app".

(** A process with one registered logger, which batches by two and holds
    one entry, and the caller's dict at location 2. *)
Definition app_logger : AILogger :=
  {| log_name := "app"; config := batch_config; http_client := accepting_client;
     context := 1%positive; batch_queue := [entry1]; batch_timer := None |}.

Definition runtime_with_logger : Runtime :=
  {| _config := default_config; _loggers := {[ "app" := 1%positive ]};
     _global_context := 1%positive; objects := {[ 1%positive := app_logger ]};
     world := world_with_caller_dict |}.

(** The scenario of the shared nested value: the caller's dict, at
    location 2, holds under ["app"] a reference to the dict object at
    location 3, as [{"app": {"name": "x"}}] does. *)
Definition inner_dict : Dict := {[ "name" := JStr "x" ]}.
Definition outer_dict : Dict := {[ "app" := Ref 3 ]}.

Definition world_with_nested_dict : World :=
  {| heap := <[3%positive := inner_dict]> (<[2%positive := outer_dict]> {[ 1%positive := ∅ ]});
     created := 0; calls := []; io := [] |}.

(** [d["name"] = "y"] *)
Definition rename (d : Dict) : Dict := <["name" := JStr "y"]> d.

(** An entry whose data holds a [datetime]. *)
Definition dated_entry : LogEntry :=
  {| le_id := test_uuid4 1; le_timestamp := test_now 1; le_level := INFO;
     le_message := "Message 2"; le_data := {[ "at" := Object "datetime" ]};
     le_exception := None |}.

(** A record of the [logging] module, at level [INFO], with extra data. *)
Definition info_record : LogRecord :=
  {| rec_name := JStr "root"; rec_pathname := JStr "app.py"; rec_lineno := JNum 12;
     rec_funcName := JStr "main"; rec_threadName := JStr "MainThread";
     rec_processName := JStr "MainProcess"; rec_levelno := 20; rec_exc_info := None;
     rec_data := Some (JObj (<["user" := JStr "john.doe"]> {[ "action" := JStr "login" ]}));
     rec_others := ∅ |}.

(** A Loguru record at level [INFO] and the same with an empty message. *)
Definition loguru_record (message : string) : LoguruRecord :=
  {| lr_level_name := "INFO"; lr_message := message; lr_exception := None;
     lr_name := JStr "app"; lr_file_path := JStr "app.py"; lr_line := JNum 12;
     lr_function := JStr "main"; lr_thread_name := JStr "MainThread";
     lr_process_name := JStr "MainProcess"; lr_extra := ∅ |}.
(** * Properties *)

(** ** The transport *)

Section TransportProperties.

Context {platform : Platform}.
Variable session_request : nat -> Request -> Res Response.
Variable self : HttpClient.
Variables (method url : string) (data : option json_text).

Let cfg := hc_config self.
Let req := the_request self method url data.
Let loop := send_loop session_request self method url data.

Lemma issued_app (a b : IO) : issued (a ++ b) = issued a ++ issued b.
Proof. apply omap_app. Qed.

Lemma issued_failed_round n :
  issued (failed_round self method url data n) = [req].
Proof. unfold failed_round. simpl. destruct (debug_enabled _); reflexivity. Qed.

Lemma issued_failed_rounds first count :
  issued (failed_rounds self method url data first count) = replicate count req.
Proof.
  revert first. induction count as [|c IH]; intros first; cbn [failed_rounds]; [reflexivity|].
  rewrite issued_app, issued_failed_round, IH. reflexivity.
Qed.

Lemma slept_app (a b : IO) : slept (a ++ b) = slept a ++ slept b.
Proof. apply omap_app. Qed.

Lemma slept_failed_round n :
  slept (failed_round self method url data n) = [backoff self n].
Proof. unfold failed_round. simpl. destruct (debug_enabled _); reflexivity. Qed.

Lemma length_slept_failed_rounds first count :
  length (slept (failed_rounds self method url data first count)) = count.
Proof.
  revert first. induction count as [|c IH]; intros first; cbn [failed_rounds]; [reflexivity|].
  rewrite slept_app, slept_failed_round, length_app, IH. reflexivity.
Qed.

Lemma delay_granted_granted io (k : nat) :
  delay_granted self io (Z.of_nat k + 1) -> granted self io 0 k.
Proof.
  unfold delay_granted, granted. fold cfg.
  replace (Z.to_nat (Z.of_nat k + 1 - 1)) with k by lia.
  replace (0 + Z.of_nat k + 1) with (Z.of_nat k + 1) by lia. auto.
Qed.

Lemma before_retry_remaining n io0 io :
  granted self io0 (n - 1) 0 -> length (slept io) = length (slept io0) ->
  n <= max_retries cfg ->
  before_retry self n io
  = (Return tt, io ++ Slept (backoff self n)
                   :: (if debug_enabled cfg then [Printed (retry_message self n)] else [])).
Proof.
  intros [Hdiv Hsleep] Hlen Hn. unfold before_retry.
  replace (n <=? max_retries (hc_config self)) with true by (symmetry; apply Z.leb_le; exact Hn).
  replace (n - 1 + Z.of_nat 0 + 1) with n in Hdiv, Hsleep by lia.
  rewrite Nat.add_0_r in Hsleep.
  unfold bind at 1, lift. rewrite Hdiv.
  unfold bind, time_sleep. rewrite Hlen, Hsleep.
  unfold when, record_sleep. fold cfg. destruct (debug_enabled cfg); simpl.
  - unfold modify, print. rewrite <- app_assoc. reflexivity.
  - reflexivity.
Qed.

Lemma before_retry_exhausted n io :
  max_retries cfg < n -> before_retry self n io = (Return tt, io).
Proof.
  intros Hn. unfold before_retry.
  replace (n <=? max_retries (hc_config self)) with false by (symmetry; apply Z.leb_gt; exact Hn).
  reflexivity.
Qed.

Lemma attempt_eq io :
  timeout_has_float cfg ->
  attempt session_request self method url data io
  = (attempt_result_of (session_request (length (issued io)) req), io ++ [Requested req]).
Proof. intros Ht. unfold attempt. fold cfg. rewrite Ht. reflexivity. Qed.

(** One failed attempt with retries remaining: the loop goes round. *)
Lemma loop_failed_round retries last io e :
  timeout_has_float cfg -> granted self io retries 0 -> retries + 1 <= max_retries cfg ->
  fails_with session_request self method url data io 0 e ->
  loop retries last io
  = loop (retries + 1) (Some e) (io ++ failed_round self method url data (retries + 1)).
Proof.
  intros Ht Hg Hr Hf. unfold loop at 1. rewrite send_loop_equation_1.
  destruct (Z_le_dec retries (max_retries (hc_config self))) as [_|Hn]; [|fold cfg in Hn; lia].
  rewrite (attempt_eq _ Ht). unfold fails_with in Hf. rewrite Nat.add_0_r in Hf.
  fold req in Hf. rewrite Hf.
  rewrite (before_retry_remaining (retries + 1) io (io ++ [Requested req])); [|
    replace (retries + 1 - 1) with retries by lia; exact Hg|
    rewrite slept_app, length_app; simpl; lia|exact Hr].
  unfold failed_round. fold req cfg. rewrite <- app_assoc. reflexivity.
Qed.

(** [count] failed attempts with retries remaining after each. *)
Lemma loop_failed_rounds count : forall retries last io (fail : nat -> exn),
  timeout_has_float cfg ->
  (forall k, (k < count)%nat -> granted self io retries k) ->
  retries + Z.of_nat count <= max_retries cfg ->
  (forall k, (k < count)%nat -> fails_with session_request self method url data io k (fail k)) ->
  loop retries last io
  = loop (retries + Z.of_nat count) (last_after last fail count)
      (io ++ failed_rounds self method url data retries count).
Proof.
  induction count as [|c IH]; intros retries last io fail Ht Hg Hr Hf.
  - simpl. rewrite Z.add_0_r, app_nil_r. reflexivity.
  - rewrite (loop_failed_round retries last io (fail 0%nat) Ht);
      [|apply Hg; lia|lia|apply Hf; lia].
    rewrite (IH (retries + 1) (Some (fail 0%nat)) _ (fun k => fail (S k)) Ht); [|  |lia|].
    + cbn [failed_rounds]. rewrite <- app_assoc.
      replace (retries + 1 + Z.of_nat c) with (retries + Z.of_nat (S c)) by lia.
      destruct c; reflexivity.
    + intros k Hk. specialize (Hg (S k) ltac:(lia)). unfold granted in *.
      rewrite slept_app, slept_failed_round, length_app. simpl.
      replace (length (slept io) + 1 + k)%nat with (length (slept io) + S k)%nat by lia.
      replace (retries + 1 + Z.of_nat k + 1) with (retries + Z.of_nat (S k) + 1) by lia.
      exact Hg.
    + intros k Hk. specialize (Hf (S k) ltac:(lia)). unfold fails_with in *.
      rewrite issued_app, issued_failed_round, length_app. simpl.
      replace (length (issued io) + 1 + k)%nat with (length (issued io) + S k)%nat by lia.
      exact Hf.
Qed.

Lemma retry_policy_granted io (count : nat) :
  (forall n, 1 <= n <= Z.of_nat count -> delay_granted self io n) ->
  forall k, (k < count)%nat -> granted self io 0 k.
Proof. intros H k Hk. apply delay_granted_granted, H. lia. Qed.

Lemma caught_is_RequestException o e :
  attempt_result_of o = Caught e -> is_RequestException e = true.
Proof.
  unfold attempt_result_of, classify. intros H.
  repeat match type of H with
         | context [match ?x with _ => _ end] => destruct x eqn:?
         end; congruence.
Qed.

(** Every attempt fails: [max_retries + 1] requests, then the last
    failure is raised. *)
Lemma send_exhausts_retries io (fail : nat -> exn) :
  retry_policy_runs self io ->
  (forall k, (k <= Z.to_nat (max_retries cfg))%nat ->
             fails_with session_request self method url data io k (fail k)) ->
  send session_request self method url data io
  = (Raise (fail (Z.to_nat (max_retries cfg))),
     io ++ failed_rounds self method url data 0 (Z.to_nat (max_retries cfg))
        ++ final_round self method url data (fail (Z.to_nat (max_retries cfg)))).
Proof.
  intros (Hm & Ht & Hg) Hf. fold cfg in Hm, Ht, Hg. unfold send. fold loop.
  set (n := Z.to_nat (max_retries cfg)) in *.
  rewrite (loop_failed_rounds n 0 None io fail Ht);
    [|apply retry_policy_granted; intros m Hm'; apply Hg; lia|lia|intros k Hk; apply Hf; lia].
  unfold loop. rewrite send_loop_equation_1.
  destruct (Z_le_dec _ _) as [_|Hn]; [|fold cfg in Hn; lia].
  rewrite (attempt_eq _ Ht). specialize (Hf n (Nat.le_refl _)). unfold fails_with in Hf.
  rewrite issued_app, issued_failed_rounds, length_app, length_replicate.
  fold req in Hf. rewrite Hf.
  rewrite before_retry_exhausted by (fold cfg; lia).
  rewrite send_loop_equation_1.
  destruct (Z_le_dec _ _) as [Hn|_]; [fold cfg in Hn; lia|].
  unfold after_loop, final_round, bind, when, raise. fold cfg req.
  destruct (debug_enabled cfg); simpl.
  - unfold modify, print. rewrite <- !app_assoc. reflexivity.
  - rewrite <- !app_assoc. reflexivity.
Qed.


Lemma before_retry_extends n io :
  exists rest, snd (before_retry self n io) = io ++ rest
               /\ (fst (before_retry self n io) = Return tt \/ rest = []).
Proof.
  unfold before_retry. destruct (n <=? max_retries (hc_config self)).
  - unfold bind at 1, lift. destruct (div_1000 _) as [secs|e].
    + unfold bind, time_sleep. destruct (sleep_outcome _ secs) as [[]|e].
      * unfold when, record_sleep, modify, ret, print.
        destruct (debug_enabled (hc_config self)); simpl.
        -- eexists. rewrite <- app_assoc. split; [reflexivity|auto].
        -- eexists. split; [reflexivity|auto].
      * exists []. rewrite app_nil_r. auto.
    + exists []. rewrite app_nil_r. auto.
  - exists []. rewrite app_nil_r. auto.
Qed.

Lemma attempt_extends io :
  exists rest, snd (attempt session_request self method url data io) = io ++ rest.
Proof.
  unfold attempt. destruct (div_1000 _).
  - exists [Requested req]. reflexivity.
  - exists []. rewrite app_nil_r. reflexivity.
Qed.

(** [send] only adds to the trace. *)
Lemma loop_extends (fuel : nat) : forall retries last io,
  Z.to_nat (max_retries cfg + 1 - retries) = fuel ->
  exists rest, snd (loop retries last io) = io ++ rest.
Proof.
  induction fuel as [fuel IH] using lt_wf_ind. intros retries last io Hfuel.
  unfold loop. rewrite send_loop_equation_1.
  destruct (Z_le_dec _ _) as [Hle|Hgt].
  - destruct (attempt_extends io) as (rest0 & Hrest0).
    destruct (attempt session_request self method url data io) as [[d|e|e] io1];
      simpl in Hrest0; subst io1; simpl; eauto.
    destruct (before_retry_extends (retries + 1) (io ++ rest0)) as (rest & Hrest & _).
    destruct (before_retry self (retries + 1) (io ++ rest0)) as [[[]|e'] io2];
      simpl in Hrest; subst io2.
    + fold cfg in Hle.
      destruct (IH (Z.to_nat (max_retries cfg + 1 - (retries + 1))) ltac:(lia)
                  (retries + 1) (Some e) ((io ++ rest0) ++ rest) eq_refl)
        as (rest' & Hrest').
      fold loop. rewrite Hrest'. exists (rest0 ++ rest ++ rest').
      rewrite <- !app_assoc. reflexivity.
    + simpl. exists (rest0 ++ rest). rewrite <- app_assoc. reflexivity.
  - unfold after_loop, bind, when, raise, modify, print.
    destruct last as [e|]; [|exists []; simpl; rewrite app_nil_r; reflexivity].
    destruct (debug_enabled _); simpl; eauto.
    exists []. rewrite app_nil_r. reflexivity.
Qed.

Lemma failed_rounds_snoc first count :
  failed_rounds self method url data first (S count)
  = failed_rounds self method url data first count
      ++ failed_round self method url data (first + Z.of_nat (S count)).
Proof.
  revert first. induction count as [|c IH]; intros first.
  - cbn [failed_rounds]. rewrite app_nil_r. reflexivity.
  - change (failed_rounds self method url data first (S (S c)))
      with (failed_round self method url data (first + 1)
              ++ failed_rounds self method url data (first + 1) (S c)).
    rewrite IH. cbn [failed_rounds]. rewrite <- app_assoc.
    replace (first + 1 + Z.of_nat (S c)) with (first + Z.of_nat (S (S c))) by lia.
    reflexivity.
Qed.

(** While retries remain, the next thing the loop does is a request. *)
Lemma loop_starts_with_request retries last io :
  timeout_has_float cfg -> retries <= max_retries cfg ->
  exists rest, snd (loop retries last io) = io ++ Requested req :: rest.
Proof.
  intros Ht Hle. unfold loop. rewrite send_loop_equation_1.
  destruct (Z_le_dec _ _) as [_|Hgt]; [|fold cfg in Hgt; lia].
  rewrite (attempt_eq _ Ht).
  destruct (attempt_result_of _) as [d|e|e]; simpl; eauto.
  destruct (before_retry_extends (retries + 1) (io ++ [Requested req])) as (rest & Hrest & _).
  destruct (before_retry self (retries + 1) (io ++ [Requested req])) as [[[]|e'] io2];
    simpl in Hrest; subst io2.
  - destruct (loop_extends _ (retries + 1) (Some e) ((io ++ [Requested req]) ++ rest) eq_refl)
      as (rest' & Hrest').
    fold loop. rewrite Hrest'. exists (rest ++ rest').
    rewrite <- !app_assoc. reflexivity.
  - simpl. exists rest. rewrite <- app_assoc. reflexivity.
Qed.


(** C6: the delay applied after the [n]-th failed attempt (counted from
    1), when retries remain, is [retry_backoff_ms * 2^(n-1)]
    milliseconds, and attempt [n + 1] follows it with no other delay in
    between; this for a call whose timeout has a float and whose delays
    up to the [n]-th are slept. *)
Theorem backoff_between_attempts io (n : nat) (fail : nat -> exn) :
  timeout_has_float cfg ->
  (forall m, 1 <= m <= Z.of_nat n -> delay_granted self io m) ->
  (1 <= n)%nat -> Z.of_nat n <= max_retries cfg ->
  (forall k, (k < n)%nat -> fails_with session_request self method url data io k (fail k)) ->
  exists before quiet after,
    snd (send session_request self method url data io)
    = io ++ before
         ++ Requested req
            :: Slept (Qmake (retry_backoff_ms cfg * 2 ^ (Z.of_nat n - 1)) 1000)
            :: quiet ++ Requested req :: after
    /\ length (issued before) = (n - 1)%nat
    /\ issued quiet = [] /\ slept quiet = [].
Proof.
  intros Ht Hg Hn Hmax Hf. unfold send. fold loop.
  rewrite (loop_failed_rounds n 0 None io fail Ht);
    [|apply retry_policy_granted; exact Hg|lia|exact Hf].
  destruct (loop_starts_with_request (0 + Z.of_nat n) (last_after None fail n)
              (io ++ failed_rounds self method url data 0 n) Ht ltac:(lia)) as (rest & Hrest).
  fold loop in Hrest. rewrite Hrest.
  destruct n as [|m]; [lia|]. rewrite failed_rounds_snoc.
  exists (failed_rounds self method url data 0 m),
    (if debug_enabled cfg then [Printed (retry_message self (0 + Z.of_nat (S m)))] else []),
    rest.
  split; [|split; [|split]].
  - unfold failed_round, backoff. fold req cfg. rewrite <- !app_assoc. simpl.
    replace (0 + Z.of_nat (S m) - 1) with (Z.of_nat (S m) - 1) by lia.
    destruct (debug_enabled cfg); reflexivity.
  - rewrite issued_failed_rounds, length_replicate. lia.
  - destruct (debug_enabled cfg); reflexivity.
  - destruct (debug_enabled cfg); reflexivity.
Qed.

(** C7, as the code has it: when every attempt of a call fails, and the
    retry policy can run, [send] raises the failure of the last attempt
    itself, a [RequestException]; it is not wrapped in another error. *)
Theorem send_reraises_last_failure io (fail : nat -> exn) :
  retry_policy_runs self io ->
  (forall k, (k <= Z.to_nat (max_retries cfg))%nat ->
             fails_with session_request self method url data io k (fail k)) ->
  fst (send session_request self method url data io) = Raise (fail (Z.to_nat (max_retries cfg)))
  /\ is_RequestException (fail (Z.to_nat (max_retries cfg))) = true
  /\ forall inner, ~ DeliveryFailed_wrapping (fail (Z.to_nat (max_retries cfg))) inner.
Proof.
  intros Hsane Hf.
  rewrite (send_exhausts_retries io fail Hsane Hf). split; [reflexivity|].
  assert (Hreq : is_RequestException (fail (Z.to_nat (max_retries cfg))) = true).
  { eapply caught_is_RequestException. apply (Hf _ (Nat.le_refl _)). }
  split; [exact Hreq|].
  intros inner [Hcls _]. unfold is_RequestException in Hreq. rewrite Hcls in Hreq.
  discriminate.
Qed.

End TransportProperties.

Section TransportScenarios.

#[local] Existing Instance test_platform.

(** With the default policy and an operating system that grants every
    sleep, the retry policy can run. *)
Lemma default_policy_runs : retry_policy_runs default_client [].
Proof.
  split; [vm_compute; discriminate|]. split; [vm_compute; reflexivity|].
  intros n Hn. change (max_retries (hc_config default_client)) with 3 in Hn.
  assert (Hcases : n = 1 \/ n = 2 \/ n = 3) by lia.
  destruct Hcases as [->|[->| ->]]; split; vm_compute; reflexivity.
Qed.


(** With the default policy the second retry waits 2000 ms. *)
Lemma backoff_between_attempts_witness :
  exists before quiet after,
    snd (send always_down default_client "POST" "http://localhost:3030/logs/app" None [])
    = before
        ++ Requested (the_request default_client "POST" "http://localhost:3030/logs/app" None)
           :: Slept (Qmake 2000 1000)
           :: quiet
           ++ Requested (the_request default_client "POST" "http://localhost:3030/logs/app" None)
           :: after
    /\ length (issued before) = 1%nat.
Proof.
  destruct (backoff_between_attempts always_down default_client
              "POST" "http://localhost:3030/logs/app" None [] 2 (fun _ => e_down))
    as (before & quiet & after & Htrace & Hlen & _).
  { vm_compute. reflexivity. }
  { intros m Hm. apply default_policy_runs. simpl. lia. }
  { lia. }
  { vm_compute; discriminate. }
  { intros k _. reflexivity. }
  exists before, quiet, after. split; [exact Htrace|exact Hlen].
Defined.

(** C7 fails as stated: with a single attempt against an unreachable
    server every attempt fails, and [send] raises the connection error
    itself, which is not a DeliveryFailed error wrapping it. *)
Lemma send_does_not_wrap_the_failure :
  (forall k, fails_with always_down (HttpClient_init single_attempt_config)
               "POST" "http://localhost:3030/logs/app" None [] k e_down)
  /\ fst (send always_down (HttpClient_init single_attempt_config)
            "POST" "http://localhost:3030/logs/app" None []) = Raise e_down
  /\ ~ (exists outer,
          fst (send always_down (HttpClient_init single_attempt_config)
                 "POST" "http://localhost:3030/logs/app" None []) = Raise outer
          /\ DeliveryFailed_wrapping outer e_down).
Proof.
  split; [intros k; reflexivity|]. split; [vm_compute; reflexivity|].
  intros (outer & Hraise & Hcls & _).
  vm_compute in Hraise. injection Hraise as <-. discriminate Hcls.
Qed.

Lemma send_reraises_last_failure_witness :
  fst (send always_down default_client "POST" "http://localhost:3030/logs/app" None [])
  = Raise e_down
  /\ is_RequestException e_down = true.
Proof.
  destruct (send_reraises_last_failure always_down default_client
              "POST" "http://localhost:3030/logs/app" None [] (fun _ => e_down))
    as (Hraise & Hreq & _).
  { exact default_policy_runs. }
  { intros k _. reflexivity. }
  split; [exact Hraise|exact Hreq].
Defined.

(** Outside the sane policies: with a negative [max_retries] the loop body
    never runs, no request is issued, and [raise last_exception] raises a
    [TypeError] because [last_exception] is still [None]. *)
Example send_with_negative_max_retries :
  send always_down (HttpClient_init negative_retries_config)
    "POST" "http://localhost:3030/logs/app" None []
  = (Raise (Exn TypeError "exceptions must derive from BaseException" None), []).
Proof. vm_compute. reflexivity. Qed.

(** Outside them as well: a first delay of 10^10 seconds is more than
    [time.sleep] converts, and its [OverflowError] ends the call after
    one request. *)
Example send_with_overlong_backoff :
  send always_down (HttpClient_init overlong_backoff_config)
    "POST" "http://localhost:3030/logs/app" None []
  = (Raise (Exn OverflowError "timestamp too large to convert to C _PyTime_t" None),
     [Requested (the_request (HttpClient_init overlong_backoff_config)
                   "POST" "http://localhost:3030/logs/app" None)]).
Proof. vm_compute. reflexivity. Qed.

End TransportScenarios.

(** The same when the operating system refuses the sleep: its error ends
    the call after one request. *)
Example send_with_refused_sleep :
  @send sleepless_platform always_down (@HttpClient_init sleepless_platform default_config)
    "POST" "http://localhost:3030/logs/app" None []
  = (Raise (Exn (OtherException "OSError") "[Errno 22] Invalid argument" None),
     [Requested (the_request (@HttpClient_init sleepless_platform default_config)
                   "POST" "http://localhost:3030/logs/app" None)]).
Proof. vm_compute. reflexivity. Qed.
(** ** The batcher *)

Section BatcherProperties.

Lemma calls_after_send self label url data w :
  calls (after_send self label url data w)
  = calls w ++ [mkSendCall "POST" url (Some data)].
Proof.
  unfold after_send. destruct (http_client self _ _ _ _) as [[d|e] i]; reflexivity.
Qed.

Lemma heap_after_send self label url data w :
  heap (after_send self label url data w) = heap w.
Proof.
  unfold after_send. destruct (http_client self _ _ _ _) as [[d|e] i]; reflexivity.
Qed.

Lemma created_after_send self label url data w :
  created (after_send self label url data w) = created w.
Proof.
  unfold after_send. destruct (http_client self _ _ _ _) as [[d|e] i]; reflexivity.
Qed.

Lemma calls_after_delivery self label url body w :
  calls (after_delivery self label url body w)
  = calls w ++ match body with
               | Return data => [mkSendCall "POST" url (Some data)]
               | Raise _ => []
               end.
Proof.
  destruct body as [data|e]; simpl; [apply calls_after_send|].
  rewrite app_nil_r. reflexivity.
Qed.

Lemma heap_after_delivery self label url body w :
  heap (after_delivery self label url body w) = heap w.
Proof. destruct body as [data|e]; simpl; [apply heap_after_send|reflexivity]. Qed.

Lemma created_after_delivery self label url body w :
  created (after_delivery self label url body w) = created w.
Proof. destruct body as [data|e]; simpl; [apply created_after_send|reflexivity]. Qed.

(** A guarded delivery returns, whatever [json.dumps] and the client
    do. *)
Lemma guarded_delivery self label url doc w :
  try_except
    (let* self := self_ in
     let* data := dumps doc in
     call_send "POST" url data >> ret tt)
    (fun e => debug_print (label +:+ exc_msg e)) (self, w)
  = (Return tt, (self, after_delivery self label url (json_dumps (heap w) doc) w)).
Proof.
  unfold try_except, bind at 1, self_ at 1, gets at 1.
  unfold bind at 1, dumps, bind at 1, on_world at 1, get, lift. cbn [fst snd].
  destruct (json_dumps (heap w) doc) as [data|e]; simpl.
  - unfold bind, self_, gets, call_send, bind, self_, gets, on_world, on_io,
      modify, ret, debug_print, when, after_send. simpl.
    destruct (http_client self "POST" url (Some data) (io w)) as [[d|e] i]; simpl.
    + reflexivity.
    + unfold bind, self_, gets, when, on_world, on_io, modify, ret. simpl.
      destruct (debug_enabled (config self)); reflexivity.
  - unfold debug_print, bind, self_, gets, when, on_world, on_io, modify, ret, print. simpl.
    destruct (debug_enabled (config self)); simpl; destruct w; reflexivity.
Qed.

Lemma _send_log_entry_eq entry self w :
  _send_log_entry entry (self, w)
  = (Return tt, (self, after_delivery self "Error sending log entry: " (_get_log_url self)
                         (entry_body (heap w) entry) w)).
Proof. apply (guarded_delivery self "Error sending log entry: "). Qed.

Lemma encode_unfold fuel h v :
  encode fuel h v
  = match v with
    | JNull | JBool _ | JNum _ | JStr _ => Return v
    | JArr l =>
        match encode_list (encode fuel h) l with
        | Raise e => Raise e
        | Return l' => Return (JArr l')
        end
    | JObj o =>
        match encode_dict (encode fuel h) o with
        | Raise e => Raise e
        | Return o' => Return (JObj o')
        end
    | Ref l =>
        match fuel with
        | O => Raise circular_reference
        | S n => encode n h (JObj (default ∅ (h !! l)))
        end
    | Object type_name => Raise (not_serializable type_name)
    end.
Proof. destruct fuel, v; reflexivity. Qed.

Lemma encode_list_Forall2 enc l l' :
  encode_list enc l = Return l' <-> Forall2 (fun x x' => enc x = Return x') l l'.
Proof.
  revert l'. induction l as [|x rest IH]; intros l'; simpl.
  - split.
    + intros [= <-]. constructor.
    + intros H. inversion H. reflexivity.
  - split.
    + destruct (enc x) as [x'|e] eqn:Hx; [|discriminate].
      destruct (encode_list enc rest) as [rest'|e] eqn:Hrest; [|discriminate].
      intros [= <-]. constructor; [exact Hx|]. apply IH. reflexivity.
    + intros H. inversion H as [|? x' ? rest' Hx Hrest]; subst.
      rewrite Hx. apply IH in Hrest. rewrite Hrest. reflexivity.
Qed.

Lemma encode_list_raises enc l e :
  encode_list enc l = Raise e -> exists x, x ∈ l /\ enc x = Raise e.
Proof.
  induction l as [|x rest IH]; simpl; [discriminate|].
  destruct (enc x) as [x'|e'] eqn:Hx.
  - destruct (encode_list enc rest) as [rest'|e''] eqn:Hrest; [discriminate|].
    intros [= ->]. destruct (IH eq_refl) as (y & Hy & Hey).
    exists y. split; [apply list_elem_of_further; exact Hy|exact Hey].
  - intros [= ->]. exists x. split; [apply list_elem_of_here|exact Hx].
Qed.

(** The body of a batch lists the documents of its entries, in order; a
    batch has a body exactly when each of its entries has one. *)
Lemma batch_body_documents h entries :
  (forall body, batch_body h entries = Return body ->
     exists docs, body = Dumps (JArr docs)
                  /\ Forall2 (fun entry doc => entry_body h entry = Return (Dumps doc))
                       entries docs)
  /\ (forall e, batch_body h entries = Raise e ->
      exists entry, entry ∈ entries /\ entry_body h entry = Raise e).
Proof.
  split.
  - intros body Hbody. unfold batch_body, json_dumps in Hbody.
    rewrite encode_unfold in Hbody.
    destruct (encode_list _ _) as [docs|e] eqn:Hdocs; [|discriminate].
    injection Hbody as <-. exists docs. split; [reflexivity|].
    apply encode_list_Forall2 in Hdocs. apply Forall2_fmap_l in Hdocs.
    eapply Forall2_impl; [exact Hdocs|]. intros entry doc Hdoc. cbv beta in Hdoc.
    unfold entry_body, json_dumps. rewrite Hdoc. reflexivity.
  - intros e He. unfold batch_body, json_dumps in He. rewrite encode_unfold in He.
    destruct (encode_list _ _) as [docs|e'] eqn:Hdocs; [discriminate|].
    injection He as ->. apply encode_list_raises in Hdocs as (x & Hx & Hex).
    apply list_elem_of_fmap in Hx as (entry & -> & Hentry).
    exists entry. split; [exact Hentry|].
    unfold entry_body, json_dumps. rewrite Hex. reflexivity.
Qed.

Lemma drain_eq batch_size : forall queue log_entries,
  let k := (Z.to_nat batch_size - length log_entries)%nat in
  drain batch_size queue log_entries = (drop k queue, log_entries ++ take k queue).
Proof.
  induction queue as [|entry rest IH]; intros log_entries k.
  - simpl. rewrite drop_nil, take_nil, app_nil_r. reflexivity.
  - simpl. destruct (Z.of_nat (length log_entries) <? batch_size) eqn:Hlt.
    + apply Z.ltb_lt in Hlt. rewrite IH. rewrite length_app. simpl.
      replace k with (S (Z.to_nat batch_size - (length log_entries + 1)))%nat by lia.
      simpl. rewrite <- app_assoc. reflexivity.
    + apply Z.ltb_ge in Hlt. replace k with 0%nat by lia.
      simpl. rewrite app_nil_r. reflexivity.
Qed.



Lemma _send_batch_empty self w :
  batch_queue self = [] -> _send_batch (self, w) = (Return tt, (self, w)).
Proof.
  intros Hq. unfold _send_batch, bind, self_, gets. simpl. rewrite Hq. reflexivity.
Qed.

Lemma _send_batch_nonempty self w :
  0 < batch_size (config self) -> batch_queue self <> [] ->
  let k := Z.to_nat (batch_size (config self)) in
  _send_batch (self, w)
  = (Return tt,
     (with_batch_queue (drop k (batch_queue self)) self,
      after_delivery self "Error sending batch: " (_get_batch_url self)
        (batch_body (heap w) (take k (batch_queue self))) w)).
Proof.
  intros Hbs Hq k. unfold _send_batch, bind at 1, self_ at 1, gets at 1. simpl.
  destruct (batch_queue self) as [|first rest] eqn:Eq; [congruence|].
  rewrite drain_eq. simpl length. rewrite Nat.sub_0_r. fold k.
  destruct k as [|k'] eqn:Ek; [lia|].
  rewrite app_nil_l. simpl take. simpl drop.
  unfold bind at 1, update_self at 1, modify at 1. simpl.
  apply (guarded_delivery (with_batch_queue (drop k' rest) self) "Error sending batch: ").
Qed.


Lemma _enqueue_log_entry_eq (self : AILogger) (w : World) (entry : LogEntry) :
  _enqueue_log_entry entry (self, w)
  = if batch_size (config self) <=? Z.of_nat (length (batch_queue self ++ [entry]))
    then _send_batch (with_batch_queue (batch_queue self ++ [entry]) self, w)
    else (Return tt, (with_batch_queue (batch_queue self ++ [entry]) self, w)).
Proof.
  unfold _enqueue_log_entry, bind, update_self, modify, self_, gets. simpl.
  destruct (_ <=? _); reflexivity.
Qed.


End BatcherProperties.


(** ** The logger facade *)

Section LoggerProperties.

Variable uuid4 : nat -> string.
Variable utcnow_isoformat : nat -> string.
Variable format_exc : string.

Let logger_log := log uuid4 utcnow_isoformat format_exc.
Let new_entry := LogEntry_init uuid4 utcnow_isoformat format_exc.

Lemma merged_data_union (ctx : Dict) (data : option Dict) :
  merged_data ctx data = default ∅ data ∪ ctx.
Proof.
  unfold merged_data, dict_update.
  destruct (decide (ctx = ∅)) as [->|Hctx];
    [rewrite (bool_decide_eq_true_2 _ eq_refl)|rewrite (bool_decide_eq_false_2 _ Hctx)];
    (destruct data as [d|]; simpl;
     [destruct (decide (d = ∅)) as [->|Hd];
      [rewrite (bool_decide_eq_true_2 _ eq_refl)|rewrite (bool_decide_eq_false_2 _ Hd)]|]);
    repeat (rewrite map_empty_union || rewrite map_union_empty); reflexivity.
Qed.

Lemma merged_data_lookup (ctx : Dict) (data : option Dict) (k : string) :
  merged_data ctx data !! k
  = match data ≫= (fun d => d !! k) with
    | Some v => Some v
    | None => ctx !! k
    end.
Proof.
  rewrite merged_data_union, lookup_union.
  destruct data as [d|]; simpl.
  - destruct (d !! k), (ctx !! k); reflexivity.
  - rewrite lookup_empty. destruct (ctx !! k); reflexivity.
Qed.

(** A [log] call with a non-empty message builds one entry and routes it. *)
Lemma log_builds_and_routes self w level message data exception :
  message <> "" ->
  exists entry,
    new_entry level message
      (Some (merged_data (read_dict (context self) w) data)) exception w
    = (Return entry, count_created w)
    /\ le_level entry = level /\ le_message entry = message
    /\ le_data entry = merged_data (read_dict (context self) w) data
    /\ logger_log level message data exception (self, w)
       = route (config self) entry (self, count_created w).
Proof.
  intros Hmsg. eexists. split; [reflexivity|]. simpl.
  assert (Hd : (if bool_decide (merged_data (read_dict (context self) w) data = ∅)
                then ∅ else merged_data (read_dict (context self) w) data)
               = merged_data (read_dict (context self) w) data).
  { case_bool_decide as H; [symmetry; exact H|reflexivity]. }
  split; [reflexivity|]. split; [reflexivity|]. split; [exact Hd|].
  unfold logger_log, log. rewrite bool_decide_eq_false_2 by exact Hmsg.
  unfold route, bind, self_, gets, on_world. simpl.
  destruct (async_enabled (config self)); [destruct (1 <? batch_size (config self))|];
    reflexivity.
Qed.

Lemma _send_batch_returns s : exists s', _send_batch s = (Return tt, s').
Proof.
  destruct s as [self w]. unfold _send_batch, bind at 1, self_ at 1, gets at 1. simpl.
  destruct (batch_queue self) as [|first rest]; [eexists; reflexivity|].
  destruct (drain _ _ _) as [rest' [|e es]].
  - eexists. reflexivity.
  - unfold bind at 1, update_self at 1, modify at 1. simpl.
    eexists. apply (guarded_delivery _ "Error sending batch: ").
Qed.

Lemma _enqueue_log_entry_returns entry s :
  exists s', _enqueue_log_entry entry s = (Return tt, s').
Proof.
  destruct s as [self w].
  unfold _enqueue_log_entry, bind, update_self, modify, self_, gets. simpl.
  destruct (_ <=? _); [apply _send_batch_returns|eexists; reflexivity].
Qed.

Lemma route_returns config entry s : exists s', route config entry s = (Return tt, s').
Proof.
  destruct s as [self w]. unfold route.
  destruct (async_enabled config); [destruct (1 <? batch_size config)|];
    try apply _enqueue_log_entry_returns; rewrite _send_log_entry_eq; eexists; reflexivity.
Qed.

Lemma log_raises_iff self w level message data exception :
  raises (logger_log level message data exception) (self, w) <-> message = "".
Proof.
  split.
  - intros (e & s' & Hraise). destruct (decide (message = "")) as [|Hne]; [assumption|].
    destruct (log_builds_and_routes self w level message data exception Hne)
      as (entry & _ & _ & _ & _ & Hlog).
    rewrite Hlog in Hraise.
    destruct (route_returns (config self) entry (self, count_created w)) as (s'' & Hret).
    rewrite Hret in Hraise. discriminate.
  - intros ->. eexists _, _. reflexivity.
Qed.

(** C2: [log] raises exactly when the message is empty, and then it
    raises the [ValueError] for the empty message and changes nothing;
    for a non-empty message it returns, whatever the transport does with
    the delivery; [debug], [info], [warning], [error] and [fatal] are
    [log] at their level. *)
Theorem log_raises_only_for_empty_message self w message data exception :
  (forall level,
     (raises (logger_log level message data exception) (self, w) <-> message = "")
     /\ (message = "" ->
         logger_log level message data exception (self, w)
         = (Raise (Exn ValueError "Message cannot be empty" None), (self, w)))
     /\ (message <> "" ->
         exists s', logger_log level message data exception (self, w) = (Return tt, s')))
  /\ debug uuid4 utcnow_isoformat format_exc message data exception
     = logger_log DEBUG message data exception
  /\ info uuid4 utcnow_isoformat format_exc message data exception
     = logger_log INFO message data exception
  /\ warning uuid4 utcnow_isoformat format_exc message data exception
     = logger_log WARNING message data exception
  /\ error uuid4 utcnow_isoformat format_exc message data exception
     = logger_log ERROR message data exception
  /\ fatal uuid4 utcnow_isoformat format_exc message data exception
     = logger_log FATAL message data exception.
Proof.
  split; [|repeat split; reflexivity].
  intros level. split; [apply log_raises_iff|]. split.
  - intros ->. reflexivity.
  - intros Hne.
    destruct (log_builds_and_routes self w level message data exception Hne)
      as (entry & _ & _ & _ & _ & Hlog).
    rewrite Hlog. apply route_returns.
Qed.


(** C8: the data of the entry that [log] builds is the instance context
    overlaid with the caller's data, the caller's keys winning: context
    [{"a": 1}] and data [{"a": 2, "b": 3}] give [{"a": 2, "b": 3}];
    without caller data it is the context, and with neither it is
    empty. *)
Theorem log_merges_context_under_data self w level message data exception :
  message <> "" ->
  (exists entry,
     logger_log level message data exception (self, w)
     = route (config self) entry (self, count_created w)
     /\ le_data entry = merged_data (read_dict (context self) w) data)
  /\ (forall (ctx : Dict) (d : option Dict) (k : string),
        merged_data ctx d !! k
        = match d ≫= (fun d => d !! k) with
          | Some v => Some v
          | None => ctx !! k
          end)
  /\ merged_data context_a1 (Some data_a2_b3) = data_a2_b3
  /\ (forall ctx : Dict, merged_data ctx None = ctx)
  /\ merged_data ∅ None = ∅.
Proof.
  intros Hne. split; [|split; [|split; [|split]]].
  - destruct (log_builds_and_routes self w level message data exception Hne)
      as (entry & _ & _ & _ & Hdata & Hlog).
    exists entry. split; [exact Hlog|exact Hdata].
  - apply merged_data_lookup.
  - vm_compute. reflexivity.
  - intros ctx. rewrite merged_data_union. simpl. apply map_empty_union.
  - rewrite merged_data_union. simpl. apply map_empty_union.
Qed.

End LoggerProperties.

(** A logger whose transport exhausts its retries against the unreachable
    server: [log] returns for a message, and raises for the empty one. *)
Lemma log_raises_only_for_empty_message_witness :
  (exists s',
     log test_uuid4 test_now test_format_exc INFO "Test message" None None
       (unreachable_logger, initial_world) = (Return tt, s'))
  /\ log test_uuid4 test_now test_format_exc INFO "" None None
       (unreachable_logger, initial_world)
     = (Raise (Exn ValueError "Message cannot be empty" None),
        (unreachable_logger, initial_world)).
Proof.
  split.
  - destruct (log_raises_only_for_empty_message test_uuid4 test_now test_format_exc
                unreachable_logger initial_world "Test message" None None) as [H _].
    destruct (H INFO) as (_ & _ & Hret). apply Hret. discriminate.
  - destruct (log_raises_only_for_empty_message test_uuid4 test_now test_format_exc
                unreachable_logger initial_world "" None None) as [H _].
    destruct (H INFO) as (_ & Hraise & _). apply Hraise. reflexivity.
Defined.

(** The same call, run: the transport was called once, it issued its four
    requests, and the failure stayed inside [log]. *)
Example log_survives_exhausted_retries :
  match log test_uuid4 test_now test_format_exc INFO "Test message" None None
          (unreachable_logger, initial_world) with
  | (result, (_, w')) =>
      result = Return tt
      /\ length (calls w') = 1%nat
      /\ length (issued (io w')) = 4%nat
      /\ slept (io w') = [Qmake 1000 1000; Qmake 2000 1000; Qmake 4000 1000]
  end.
Proof. vm_compute. repeat split; reflexivity. Qed.


(** Instance context [{"a": 1}], caller data [{"a": 2, "b": 3}]. *)
Lemma log_merges_context_under_data_witness :
  exists entry,
    log test_uuid4 test_now test_format_exc INFO "Test message" (Some data_a2_b3) None
      (test_logger sync_config accepting_client [], world_with_context context_a1)
    = _send_log_entry entry
        (test_logger sync_config accepting_client [],
         count_created (world_with_context context_a1))
    /\ le_data entry = data_a2_b3.
Proof.
  destruct (log_merges_context_under_data test_uuid4 test_now test_format_exc
              (test_logger sync_config accepting_client [])
              (world_with_context context_a1) INFO "Test message" (Some data_a2_b3) None)
    as ((entry & Hlog & Hdata) & _); [discriminate|].
  exists entry. split; [exact Hlog|]. rewrite Hdata. vm_compute. reflexivity.
Defined.
(** ** The context *)

Section ContextProperties.

Lemma read_dict_mutate_other l l' f w :
  l' <> l -> read_dict l' (dict_mutate l f w) = read_dict l' w.
Proof.
  intros Hne. unfold read_dict, dict_mutate. simpl.
  rewrite lookup_insert_ne by congruence. reflexivity.
Qed.

Lemma read_dict_mutate_all_other l l' mutations : forall w,
  l' <> l -> read_dict l' (mutate_all l mutations w) = read_dict l' w.
Proof.
  induction mutations as [|f rest IH]; intros w Hne; simpl; [reflexivity|].
  rewrite IH by exact Hne. apply read_dict_mutate_other. exact Hne.
Qed.

Lemma dict_copy_fresh l d w :
  heap w !! l = Some d ->
  exists copy,
    dict_copy l w = (Return copy, with_heap (<[copy := d]> (heap w)) w)
    /\ copy <> l /\ heap w !! copy = None.
Proof.
  intros Hl. exists (fresh (dom (heap w))).
  unfold dict_copy, alloc_dict, read_dict. rewrite Hl. simpl.
  split; [reflexivity|].
  assert (Hfresh : fresh (dom (heap w)) ∉ dom (heap w)) by apply is_fresh.
  split.
  - intros Heq. apply Hfresh. rewrite Heq. apply elem_of_dom. eauto.
  - apply not_elem_of_dom. exact Hfresh.
Qed.

Lemma set_context_some self w l d :
  heap w !! l = Some d ->
  exists copy,
    set_context (Some l) (self, w)
    = (Return tt, (with_context copy self, with_heap (<[copy := d]> (heap w)) w))
    /\ copy <> l /\ heap w !! copy = None.
Proof.
  intros Hl. destruct (dict_copy_fresh l d w Hl) as (copy & Hcopy & Hne & Hnew).
  exists copy. split; [|split; assumption].
  unfold set_context, bind, on_world, update_self, modify. cbn [fst snd].
  rewrite Hcopy. reflexivity.
Qed.

(** C9, as the code has it: [set_context] raises exactly when its
    argument is [None], and then it raises a [ValueError] and changes
    nothing; given a dict, it makes the logger's context a new dict
    object that holds the same keys with the same values, and changes
    nothing else. The copy is shallow: no later change of the keys of
    the dict passed in changes what the logger's context holds, but a
    value that is a reference to a dict object is the same reference in
    both, so that object stays shared. *)
Theorem set_context_stores_a_copy (self : AILogger) (w : World) (arg : option loc) :
  (raises (set_context arg) (self, w) <-> arg = None)
  /\ (arg = None ->
      set_context arg (self, w)
      = (Raise (Exn ValueError "Context cannot be None" None), (self, w)))
  /\ (forall l d,
        arg = Some l -> heap w !! l = Some d ->
        exists self' w',
          set_context arg (self, w) = (Return tt, (self', w'))
          /\ self' = with_context (context self') self
          /\ heap w !! context self' = None
          /\ context self' <> l
          /\ heap w' = <[context self' := d]> (heap w)
          /\ read_dict (context self') w' = d
          /\ read_dict l w' = d
          /\ (forall mutations : list (Dict -> Dict),
                read_dict (context self') (mutate_all l mutations w') = d)
          /\ (forall k n, d !! k = Some (Ref n) ->
                read_dict (context self') w' !! k = Some (Ref n)
                /\ read_dict l w' !! k = Some (Ref n))).
Proof.
  split; [|split].
  - split.
    + intros (e & s' & Hraise). destruct arg as [l|]; [|reflexivity].
      unfold set_context, bind, on_world, dict_copy, alloc_dict, update_self, modify in Hraise.
      simpl in Hraise. discriminate.
    + intros ->. eexists _, _. reflexivity.
  - intros ->. reflexivity.
  - intros l d -> Hl.
    destruct (set_context_some self w l d Hl) as (copy & Hrun & Hne & Hnew).
    exists (with_context copy self), (with_heap (<[copy := d]> (heap w)) w).
    assert (Hcopy : read_dict copy (with_heap (<[copy := d]> (heap w)) w) = d).
    { unfold read_dict. simpl. rewrite lookup_insert_eq. reflexivity. }
    assert (Harg : read_dict l (with_heap (<[copy := d]> (heap w)) w) = d).
    { unfold read_dict. simpl. rewrite lookup_insert_ne by exact Hne. rewrite Hl. reflexivity. }
    cbn [context with_context].
    split; [exact Hrun|]. split; [reflexivity|]. split; [exact Hnew|]. split; [exact Hne|].
    split; [reflexivity|]. split; [exact Hcopy|]. split; [exact Harg|]. split.
    + intros mutations. rewrite read_dict_mutate_all_other by exact Hne. exact Hcopy.
    + intros k n Hk. rewrite Hcopy, Harg. split; exact Hk.
Qed.

End ContextProperties.

(** The caller passes its dict and then adds a key to it: the caller's
    dict changes, the logger's context does not. *)
Lemma set_context_stores_a_copy_witness :
  exists self' w',
    set_context (Some 2%positive)
      (test_logger sync_config accepting_client [], world_with_caller_dict)
    = (Return tt, (self', w'))
    /\ context self' <> 2%positive
    /\ read_dict (context self') (dict_mutate 2%positive set_env w') = caller_dict
    /\ read_dict 2%positive (dict_mutate 2%positive set_env w') = set_env caller_dict.
Proof.
  destruct (set_context_stores_a_copy (test_logger sync_config accepting_client [])
              world_with_caller_dict (Some 2%positive)) as (_ & _ & H).
  destruct (H 2%positive caller_dict eq_refl eq_refl)
    as (self' & w' & Hrun & _ & _ & Hown & _ & _ & Harg & Hkept & _).
  exists self', w'. split; [exact Hrun|]. split; [exact Hown|].
  split; [exact (Hkept [set_env])|].
  unfold dict_mutate. rewrite Harg. unfold read_dict. simpl.
  rewrite lookup_insert_eq. reflexivity.
Defined.

(** C9 fails as stated: the caller passes [{"app": {"name": "x"}}] and
    then sets [context["app"]["name"] = "y"]. The inner dict is shared
    with the copy, so the logger's stored context, which read
    [{"app": {"name": "x"}}] after the call, now reads
    [{"app": {"name": "y"}}], and that is what the next entry carries. *)
Lemma set_context_shares_nested_values :
  exists self' w',
    set_context (Some 2%positive)
      (test_logger sync_config accepting_client [], world_with_nested_dict)
    = (Return tt, (self', w'))
    /\ json_dumps (heap w') (Ref (context self'))
       = Return (Dumps (JObj {[ "app" := JObj {[ "name" := JStr "x" ]} ]}))
    /\ json_dumps (heap (dict_mutate 3%positive rename w')) (Ref (context self'))
       = Return (Dumps (JObj {[ "app" := JObj {[ "name" := JStr "y" ]} ]}))
    /\ exists entry s',
         log test_uuid4 test_now test_format_exc INFO "Test message" None None
           (self', dict_mutate 3%positive rename w')
         = _send_log_entry entry s'
         /\ json_dumps (heap (snd s')) (JObj (le_data entry))
            = Return (Dumps (JObj {[ "app" := JObj {[ "name" := JStr "y" ]} ]})).
Proof.
  eexists _, _. split; [reflexivity|]. split; [vm_compute; reflexivity|].
  split; [vm_compute; reflexivity|].
  eexists _, _. split; [reflexivity|]. vm_compute. reflexivity.
Qed.
(** ** The registry *)

Section RegistryProperties.

Context {platform : Platform}.
Variable session_request : nat -> Request -> Res Response.

Lemma get_logger_existing rt name l :
  name <> "" -> _loggers rt !! name = Some l ->
  get_logger session_request name rt = (Return l, rt).
Proof.
  intros Hne Hl. unfold get_logger. rewrite bool_decide_eq_false_2 by exact Hne.
  unfold bind, get, ret. rewrite Hl. cbn beta iota. rewrite Hl. reflexivity.
Qed.

Lemma AILogger_init_eq name cfg client w :
  exists logger,
    AILogger_init session_request name cfg client w
    = (Return logger, with_heap (<[fresh (dom (heap w)) := ∅]> (heap w)) w)
    /\ log_name logger = name /\ config logger = cfg
    /\ context logger = fresh (dom (heap w)) /\ batch_queue logger = [].
Proof.
  unfold AILogger_init, bind, alloc_dict.
  destruct (async_enabled cfg && (0 <? batch_interval_ms cfg));
    eexists; (split; [reflexivity|]); repeat split.
Qed.



End RegistryProperties.

Section RegistryScenarios.

#[local] Existing Instance test_platform.


(** The registry, run from the start of the process: the global context
    is set from the caller's dict, a logger is created, and the same name
    is asked for again. *)
Example registry_run :
  let start := with_world world_with_caller_dict initial_runtime in
  match (set_global_context (Some 2%positive) >>
         let* first := get_logger always_down "app" in
         let* second := get_logger always_down "app" in
         let* cls := get in
         ret (first, second, cls)) start with
  | (Return (first, second, cls), _) =>
      first = second
      /\ size (_loggers cls) = 1%nat
      /\ (exists logger,
            objects cls !! first = Some logger
            /\ read_dict (context logger) (world cls) = caller_dict
            /\ context logger <> _global_context cls
            /\ _global_context cls <> 2%positive)
  | (Raise _, _) => False
  end.
Proof.
  vm_compute. split; [reflexivity|]. split; [reflexivity|].
  eexists. split; [reflexivity|]. repeat split; discriminate.
Qed.

End RegistryScenarios.
(** ** The scenarios of tests/test_ai_logger.py, run *)

(** [test_log_with_batching_enabled_batches_requests]: with
    [batch_size = 2], two [info] calls and a [flush] make exactly one call
    of the transport, a batch POST of both messages in call order. *)
Example batching_scenario :
  match (info test_uuid4 test_now test_format_exc "Message 1" None None >>
         info test_uuid4 test_now test_format_exc "Message 2" None None >>
         flush) (test_logger batch_config accepting_client [], initial_world) with
  | (result, (logger, w')) =>
      result = Return tt
      /\ batch_queue logger = []
      /\ exists body,
           batch_body (heap initial_world) [entry1; entry2] = Return body
           /\ calls w' = [mkSendCall "POST"
                            "https://logs.example.com/test/logs/test-logger/batch" (Some body)]
  end.
Proof.
  vm_compute. split; [reflexivity|]. split; [reflexivity|].
  eexists. split; reflexivity.
Qed.

(** The same with a [datetime] in the data of the second message:
    [json.dumps] raises inside the [try], nothing is sent, and both
    entries have left the queue. *)
Example unserializable_batch_scenario :
  match (info test_uuid4 test_now test_format_exc "Message 1" None None >>
         info test_uuid4 test_now test_format_exc "Message 2"
           (Some {[ "at" := Object "datetime" ]}) None)
          (test_logger batch_config accepting_client [], initial_world) with
  | (result, (logger, w')) =>
      result = Return tt /\ batch_queue logger = [] /\ calls w' = []
  end.
Proof. vm_compute. repeat split; reflexivity. Qed.

(** [test_error_with_exception_sends_log_entry_with_exception_details]:
    in synchronous mode [error] makes one POST to the single-entry
    endpoint whose body carries the level, the message and the type of
    the exception. *)
Example error_scenario :
  match error test_uuid4 test_now test_format_exc "Error occurred" None
          (Some (Exn (OtherException "Exception") "Test exception" None))
          (test_logger sync_config accepting_client [], initial_world) with
  | (result, (_, w')) =>
      result = Return tt
      /\ exists body,
           calls w' = [mkSendCall "POST" "https://logs.example.com/test/logs/test-logger"
                         (Some (Dumps (JObj body)))]
           /\ body !! "level" = Some (JStr "error")
           /\ body !! "message" = Some (JStr "Error occurred")
           /\ exists exception,
                body !! "exception" = Some (JObj exception)
                /\ exception !! "type" = Some (JStr "Exception")
                /\ exception !! "message" = Some (JStr "Test exception")
  end.
Proof.
  vm_compute. split; [reflexivity|].
  eexists. split; [reflexivity|]. split; [reflexivity|]. split; [reflexivity|].
  eexists. split; [reflexivity|]. split; reflexivity.
Qed.
(** ** More about the transport *)

Section TransportBounds.

Context {platform : Platform}.
Variable session_request : nat -> Request -> Res Response.
Variable self : HttpClient.
Variables (method url : string) (data : option json_text).

Let cfg := hc_config self.
Let req := the_request self method url data.
Let loop := send_loop session_request self method url data.

Lemma before_retry_effect n io :
  exists rest,
    snd (before_retry self n io) = io ++ rest
    /\ issued rest = []
    /\ (length (slept rest) <= 1)%nat
    /\ (max_retries cfg < n -> rest = []).
Proof.
  unfold before_retry. fold cfg. destruct (n <=? max_retries cfg) eqn:Hn.
  - apply Z.leb_le in Hn. unfold bind at 1, lift. destruct (div_1000 _) as [secs|e].
    + unfold bind, time_sleep. destruct (sleep_outcome _ secs) as [[]|e].
      * unfold when, record_sleep, modify, ret, print.
        destruct (debug_enabled cfg); simpl.
        -- exists [Slept secs; Printed (retry_message self n)].
           rewrite <- app_assoc. simpl. repeat split; try (intros; lia).
        -- exists [Slept secs]. simpl. repeat split; try (intros; lia).
      * exists []. rewrite app_nil_r. simpl. repeat split; try lia.
    + exists []. rewrite app_nil_r. simpl. repeat split; try lia.
  - exists []. rewrite app_nil_r. simpl. repeat split; try lia.
Qed.

Lemma div_1000_raise n e : div_1000 n = Raise e -> classify e = Propagated e.
Proof. unfold div_1000. destruct (_ <=? _); [|discriminate]. intros [= <-]. reflexivity. Qed.

Lemma attempt_effect io :
  (attempt session_request self method url data io
   = (attempt_result_of (session_request (length (issued io)) req), io ++ [Requested req]))
  \/ (exists e, attempt session_request self method url data io = (Propagated e, io)).
Proof.
  unfold attempt. fold cfg. destruct (div_1000 (timeout_ms cfg)) as [t|e] eqn:Ht.
  - left. reflexivity.
  - right. exists e. rewrite (div_1000_raise _ _ Ht). reflexivity.
Qed.

Lemma after_loop_effect last io :
  exists rest,
    snd (after_loop self last io) = io ++ rest /\ issued rest = [] /\ slept rest = [].
Proof.
  unfold after_loop, bind, when, raise, modify, print.
  destruct last as [e|]; [|exists []; simpl; rewrite app_nil_r; auto].
  destruct (debug_enabled _); simpl.
  - eexists. split; [reflexivity|]. split; reflexivity.
  - exists []. rewrite app_nil_r. auto.
Qed.

Lemma loop_bounded (fuel : nat) : forall retries last io,
  Z.to_nat (max_retries cfg + 1 - retries) = fuel ->
  exists rest k,
    snd (loop retries last io) = io ++ rest
    /\ issued rest = replicate k req
    /\ (k <= fuel)%nat
    /\ (length (slept rest) <= fuel - 1)%nat.
Proof.
  induction fuel as [fuel IH] using lt_wf_ind. intros retries last io Hfuel.
  unfold loop. rewrite send_loop_equation_1.
  destruct (Z_le_dec _ _) as [Hle|Hgt]; [fold cfg in Hle|fold cfg in Hgt].
  - destruct (attempt_effect io) as [Hatt|[e0 Hatt]]; rewrite Hatt;
      [|exists [], 0%nat; simpl; rewrite app_nil_r; repeat split; lia].
    destruct (attempt_result_of _) as [d|e|e]; simpl.
    + exists [Requested req], 1%nat. repeat split; simpl; lia.
    + destruct (before_retry_effect (retries + 1) (io ++ [Requested req]))
        as (rest & Hrest & Hiss & Hsl & Hnone).
      destruct (before_retry self (retries + 1) (io ++ [Requested req])) as [[[]|e'] io2];
        simpl in Hrest; subst io2.
      * destruct (IH (Z.to_nat (max_retries cfg + 1 - (retries + 1))) ltac:(lia)
                    (retries + 1) (Some e) ((io ++ [Requested req]) ++ rest) eq_refl)
          as (rest' & k & Hrest' & Hiss' & Hk & Hsl').
        fold loop. rewrite Hrest'. exists ([Requested req] ++ rest ++ rest'), (S k).
        split; [rewrite <- !app_assoc; reflexivity|].
        split; [rewrite !issued_app, Hiss, Hiss'; reflexivity|].
        split; [lia|].
        rewrite !slept_app, !length_app. simpl.
        destruct (Z_le_dec (retries + 1) (max_retries cfg)) as [Hmore|Hlast].
        -- lia.
        -- rewrite (Hnone ltac:(lia)) in *. simpl. lia.
      * simpl. exists ([Requested req] ++ rest), 1%nat.
        split; [rewrite <- app_assoc; reflexivity|].
        split; [rewrite issued_app, Hiss; reflexivity|].
        split; [lia|].
        rewrite slept_app, length_app. simpl.
        destruct (Z_le_dec (retries + 1) (max_retries cfg)) as [Hmore|Hlast].
        -- lia.
        -- rewrite (Hnone ltac:(lia)). simpl. lia.
    + exists [Requested req], 1%nat. repeat split; simpl; lia.
  - destruct (after_loop_effect last io) as (rest & Hrest & Hiss & Hsl).
    exists rest, 0%nat. rewrite Hsl. repeat split; simpl; try assumption; lia.
Qed.

(** X1: whatever the server does and whatever the configuration holds, one
    call of [send] only adds to the trace, every request it issues is the
    same request, it issues at most [max_retries + 1] of them and it
    sleeps at most [max_retries] times. *)
Theorem send_is_bounded io :
  exists rest k,
    snd (send session_request self method url data io) = io ++ rest
    /\ issued rest = replicate k req
    /\ (k <= Z.to_nat (max_retries cfg + 1))%nat
    /\ (length (slept rest) <= Z.to_nat (max_retries cfg))%nat.
Proof.
  destruct (loop_bounded _ 0 None io eq_refl) as (rest & k & Hrest & Hiss & Hk & Hsl).
  exists rest, k. split; [exact Hrest|]. split; [exact Hiss|]. split; lia.
Qed.

(** X2: with a negative [max_retries] the loop body never runs: [send]
    issues no request, leaves the trace as it was, and its final
    [raise last_exception] raises a [TypeError], [last_exception] being
    [None]. *)
Theorem send_makes_no_attempt_when_retries_negative io :
  max_retries cfg < 0 ->
  send session_request self method url data io
  = (Raise (Exn TypeError "exceptions must derive from BaseException" None), io).
Proof.
  intros Hneg. unfold send. rewrite send_loop_equation_1.
  destruct (Z_le_dec _ _) as [Hle|_]; [fold cfg in Hle; lia|]. reflexivity.
Qed.

(** X3: when the first response has no error status ([max_retries] not
    being negative and the timeout having a float): for status 204
    [send] returns the empty dict after that single request and never
    reads the body; otherwise what happens is up to [response.json()]:
    its value is returned after the single request, an exception of its
    that is not a [RequestException] leaves [send] at once, and one that
    is makes the attempt a failed one, which is retried like any
    other. *)
Theorem send_returns_first_response io response :
  0 <= max_retries cfg -> timeout_has_float cfg ->
  session_request (length (issued io)) req = Return response ->
  is_error_status (status_code response) = false ->
  (status_code response = 204 ->
   send session_request self method url data io = (Return (JObj ∅), io ++ [Requested req]))
  /\ (forall d, status_code response <> 204 -> resp_json response = Return d ->
      send session_request self method url data io = (Return d, io ++ [Requested req]))
  /\ (forall e, status_code response <> 204 -> resp_json response = Raise e ->
      is_RequestException e = false ->
      send session_request self method url data io = (Raise e, io ++ [Requested req]))
  /\ (forall e, status_code response <> 204 -> resp_json response = Raise e ->
      is_RequestException e = true ->
      fails_with session_request self method url data io 0 e).
Proof.
  intros Hmax Ht Hresp Hok.
  assert (Hstep : send session_request self method url data io
                  = match attempt_result_of (Return response) with
                    | Returned d => (Return d, io ++ [Requested req])
                    | Propagated e => (Raise e, io ++ [Requested req])
                    | Caught e =>
                        match before_retry self (0 + 1) (io ++ [Requested req]) with
                        | (Return _, io2) =>
                            send_loop session_request self method url data (0 + 1) (Some e) io2
                        | (Raise e', io2) => (Raise e', io2)
                        end
                    end).
  { unfold send. rewrite send_loop_equation_1.
    destruct (Z_le_dec _ _) as [_|Hgt]; [|fold cfg in Hgt; lia].
    rewrite (attempt_eq session_request self method url data io Ht). fold req.
    rewrite Hresp. reflexivity. }
  split; [|split; [|split]].
  - intros H204. rewrite Hstep. unfold attempt_result_of. rewrite Hok, H204. reflexivity.
  - intros d Hne Hjson. rewrite Hstep. unfold attempt_result_of. rewrite Hok, Hjson.
    replace (status_code response =? 204) with false by (symmetry; apply Z.eqb_neq; exact Hne).
    reflexivity.
  - intros e Hne Hjson Hother. rewrite Hstep. unfold attempt_result_of. rewrite Hok, Hjson.
    replace (status_code response =? 204) with false by (symmetry; apply Z.eqb_neq; exact Hne).
    unfold classify. rewrite Hother. reflexivity.
  - intros e Hne Hjson Hreq. unfold fails_with. rewrite Nat.add_0_r. fold req. rewrite Hresp.
    unfold attempt_result_of. rewrite Hok, Hjson.
    replace (status_code response =? 204) with false by (symmetry; apply Z.eqb_neq; exact Hne).
    unfold classify. rewrite Hreq. reflexivity.
Qed.

(** X4: a response with a 4xx or 5xx status is a failed attempt like any
    other, a client error such as 404 included: when every response has
    such a status, and the retry policy can run, the request is issued
    [max_retries + 1] times and the [HTTPError] that
    [raise_for_status()] raises for the last response is raised. *)
Theorem send_retries_every_error_status io (responses : nat -> Response) :
  retry_policy_runs self io ->
  (forall k, (k <= Z.to_nat (max_retries cfg))%nat ->
             session_request (length (issued io) + k)%nat req = Return (responses k)
             /\ is_error_status (status_code (responses k)) = true) ->
  exists io',
    send session_request self method url data io
    = (Raise (http_error (responses (Z.to_nat (max_retries cfg)))), io')
    /\ issued io' = issued io ++ replicate (Z.to_nat (max_retries cfg + 1)) req.
Proof.
  intros Hsane Hresp.
  rewrite (send_exhausts_retries session_request self method url data io
             (fun k => http_error (responses k)) Hsane).
  - eexists. split; [reflexivity|]. destruct Hsane as [Hm _]. fold cfg in Hm.
    rewrite !issued_app, issued_failed_rounds. unfold final_round. fold req.
    replace (Z.to_nat (max_retries cfg + 1)) with (Z.to_nat (max_retries cfg) + 1)%nat by lia.
    rewrite replicate_add. simpl. destruct (debug_enabled _); reflexivity.
  - intros k Hk. destruct (Hresp k Hk) as [Hr Herr]. unfold fails_with. fold req.
    rewrite Hr. unfold attempt_result_of. rewrite Herr. reflexivity.
Qed.

(** X5: an exception that is not a [RequestException], raised by
    [session.request] in any attempt, is not retried: after [count]
    failed attempts whose delays were slept, it leaves [send] at once,
    with no further request, delay or debug line. *)
Theorem send_propagates_other_exceptions io (count : nat) (fail : nat -> exn) e :
  timeout_has_float cfg ->
  (forall n, 1 <= n <= Z.of_nat count -> delay_granted self io n) ->
  Z.of_nat count <= max_retries cfg ->
  (forall k, (k < count)%nat -> fails_with session_request self method url data io k (fail k)) ->
  session_request (length (issued io) + count)%nat req = Raise e ->
  is_RequestException e = false ->
  send session_request self method url data io
  = (Raise e, io ++ failed_rounds self method url data 0 count ++ [Requested req]).
Proof.
  intros Ht Hg Hc Hf Hraise Hother. unfold send. unfold cfg in Ht, Hc.
  rewrite (loop_failed_rounds session_request self method url data count 0 None io fail Ht);
    [|apply retry_policy_granted; exact Hg|lia|exact Hf].
  rewrite send_loop_equation_1.
  destruct (Z_le_dec _ _) as [_|Hn]; [|lia].
  rewrite (attempt_eq session_request self method url data _ Ht). fold req.
  rewrite issued_app, issued_failed_rounds, length_app, length_replicate.
  rewrite Hraise. unfold attempt_result_of, classify. rewrite Hother.
  rewrite <- app_assoc. reflexivity.
Qed.

Lemma total_delay_app (a b : list Q) :
  (total_delay (a ++ b) == total_delay a + total_delay b)%Q.
Proof.
  induction a as [|x a IH]; simpl.
  - rewrite Qplus_0_l. reflexivity.
  - rewrite IH. apply Qplus_assoc.
Qed.

Lemma total_delay_failed_rounds (count : nat) : forall first,
  0 <= first ->
  (total_delay (slept (failed_rounds self method url data first count))
   == Qmake (retry_backoff_ms cfg * 2 ^ first * (2 ^ Z.of_nat count - 1)) 1000)%Q.
Proof.
  induction count as [|c IH]; intros first Hfirst.
  - simpl. unfold Qeq. simpl. lia.
  - cbn [failed_rounds]. rewrite slept_app, slept_failed_round, total_delay_app.
    rewrite (IH (first + 1)) by lia. unfold backoff, total_delay. fold cfg. simpl foldr.
    replace (first + 1 - 1) with first by lia.
    replace (2 ^ Z.of_nat (S c)) with (2 * 2 ^ Z.of_nat c)
      by (rewrite <- Z.pow_succ_r by lia; f_equal; lia).
    replace (2 ^ (first + 1)) with (2 * 2 ^ first)
      by (rewrite <- Z.pow_succ_r by lia; f_equal; lia).
    unfold Qeq, Qplus. simpl. rewrite !Pos2Z.inj_mul. ring.
Qed.

(** X6: when every attempt fails, and the retry policy can run, the
    delays of one call add up to [retry_backoff_ms * (2^max_retries - 1)]
    milliseconds. *)
Theorem send_total_backoff io (fail : nat -> exn) :
  retry_policy_runs self io ->
  (forall k, (k <= Z.to_nat (max_retries cfg))%nat ->
             fails_with session_request self method url data io k (fail k)) ->
  exists rest,
    snd (send session_request self method url data io) = io ++ rest
    /\ (total_delay (slept rest)
        == Qmake (retry_backoff_ms cfg * (2 ^ max_retries cfg - 1)) 1000)%Q.
Proof.
  intros Hsane Hf.
  rewrite (send_exhausts_retries session_request self method url data io fail Hsane Hf).
  eexists. split; [reflexivity|]. destruct Hsane as [Hm _]. fold cfg in Hm.
  rewrite slept_app, total_delay_app, total_delay_failed_rounds by lia.
  assert (Hfinal : forall e, slept (final_round self method url data e) = []).
  { intros e. unfold final_round. simpl. destruct (debug_enabled _); reflexivity. }
  rewrite Hfinal. simpl total_delay. rewrite Qplus_0_r.
  rewrite Z2Nat.id by exact Hm. fold cfg. unfold Qeq. simpl. ring.
Qed.

(** X29: a delay that is refused ends the call. When the first
    [count + 1] attempts fail, the delays after the first [count] of them
    are slept and the next delay is refused (its quotient has no float,
    or [time.sleep] raises, as it does for a negative delay and for one
    of 10^10 seconds), [send] raises the exception of the refusal at
    once: the trace ends with the request of attempt [count + 1], and no
    further attempt is made although retries remain. *)
Theorem send_stops_at_refused_delay io (count : nat) (fail : nat -> exn) e :
  timeout_has_float cfg ->
  (forall n, 1 <= n <= Z.of_nat count -> delay_granted self io n) ->
  Z.of_nat count + 1 <= max_retries cfg ->
  (forall k, (k <= count)%nat -> fails_with session_request self method url data io k (fail k)) ->
  delay_refused self io (Z.of_nat count + 1) e ->
  send session_request self method url data io
  = (Raise e, io ++ failed_rounds self method url data 0 count ++ [Requested req]).
Proof.
  intros Ht Hg Hc Hf Href. unfold send. unfold cfg in Ht, Hc.
  rewrite (loop_failed_rounds session_request self method url data count 0 None io fail Ht);
    [|apply retry_policy_granted; exact Hg|lia|intros k Hk; apply Hf; lia].
  rewrite send_loop_equation_1.
  destruct (Z_le_dec _ _) as [_|Hn]; [|lia].
  rewrite (attempt_eq session_request self method url data _ Ht). fold req.
  rewrite issued_app, issued_failed_rounds, length_app, length_replicate.
  specialize (Hf count (Nat.le_refl _)). unfold fails_with in Hf. fold req in Hf. rewrite Hf.
  unfold before_retry.
  replace (0 + Z.of_nat count + 1) with (Z.of_nat count + 1) by lia.
  replace (Z.of_nat count + 1 <=? max_retries (hc_config self)) with true
    by (symmetry; apply Z.leb_le; exact Hc).
  unfold bind at 1, lift.
  destruct Href as [Hdiv|[Hdiv Hsleep]]; rewrite Hdiv.
  - rewrite <- app_assoc. reflexivity.
  - unfold bind, time_sleep.
    rewrite !slept_app, !length_app, length_slept_failed_rounds. simpl length.
    replace (Z.to_nat (Z.of_nat count + 1 - 1)) with count in Hsleep by lia.
    rewrite Nat.add_0_r, Hsleep. rewrite <- app_assoc. reflexivity.
Qed.

End TransportBounds.

Section SessionHeaders.

Context {platform : Platform}.

Lemma ci_get_set key v d name :
  ci_get name (ci_set key v d)
  = if decide (str_lower key = str_lower name) then Some v else ci_get name d.
Proof.
  unfold ci_get, ci_set. case_decide as Heq.
  - rewrite Heq, lookup_insert_eq. reflexivity.
  - rewrite lookup_insert_ne by exact Heq. reflexivity.
Qed.

(** What [update] leaves under a name: the value of the key of [other]
    that has this name, when there is exactly one, and what was there
    before when there is none. *)
Lemma ci_get_update d other :
  (forall name,
     (forall k, str_lower k = str_lower name -> other !! k = None) ->
     ci_get name (ci_update d other) = ci_get name d)
  /\ (forall name k v,
        other !! k = Some v -> str_lower k = str_lower name ->
        (forall k', str_lower k' = str_lower name -> other !! k' <> None -> k' = k) ->
        ci_get name (ci_update d other) = Some v).
Proof.
  unfold ci_update.
  apply (map_fold_weak_ind
           (fun r (m : gmap string string) =>
              (forall name,
                 (forall k, str_lower k = str_lower name -> m !! k = None) ->
                 ci_get name r = ci_get name d)
              /\ (forall name k v,
                    m !! k = Some v -> str_lower k = str_lower name ->
                    (forall k', str_lower k' = str_lower name -> m !! k' <> None -> k' = k) ->
                    ci_get name r = Some v))).
  - split; [reflexivity|]. intros name k v Hk. rewrite lookup_empty in Hk. discriminate.
  - intros i x m r Hi [IHnone IHone]. split.
    + intros name Hnone. rewrite ci_get_set. case_decide as Heq.
      * specialize (Hnone i Heq). rewrite lookup_insert_eq in Hnone. discriminate.
      * apply IHnone. intros k Hk. specialize (Hnone k Hk).
        destruct (decide (i = k)) as [->|Hik]; [congruence|].
        rewrite lookup_insert_ne in Hnone by exact Hik. exact Hnone.
    + intros name k v Hk Hname Huniq. rewrite ci_get_set.
      destruct (decide (i = k)) as [->|Hik].
      * rewrite lookup_insert_eq in Hk. injection Hk as <-.
        rewrite decide_True by exact Hname. reflexivity.
      * rewrite lookup_insert_ne in Hk by exact Hik.
        case_decide as Heq.
        -- exfalso. apply Hik. apply Huniq; [exact Heq|]. rewrite lookup_insert_eq. discriminate.
        -- apply (IHone name k v Hk Hname). intros k' Hk' Hin. apply Huniq; [exact Hk'|].
           destruct (decide (i = k')) as [->|Hik']; [congruence|].
           rewrite lookup_insert_ne by exact Hik'. exact Hin.
Qed.

(** X7: the headers [__init__] leaves on the session, looked up by name
    without regard to case as the session does. A custom header wins over
    everything else under its name (when no other custom header has the
    same name up to case). Without a custom header of the name,
    [Content-Type] and [Accept] are [application/json], [X-API-Key] is
    the API key when that is non-empty and is not set otherwise, and any
    other name has what a new [requests] session has under it. *)
Theorem session_headers_set (config : NeuralLogConfig) (name : string) :
  (forall k v,
     headers config !! k = Some v -> str_lower k = str_lower name ->
     (forall k', str_lower k' = str_lower name -> headers config !! k' <> None -> k' = k) ->
     ci_get name (session_headers (HttpClient_init config)) = Some v)
  /\ ((forall k, str_lower k = str_lower name -> headers config !! k = None) ->
      ci_get name (session_headers (HttpClient_init config))
      = if decide (str_lower name = "content-type") then Some "application/json"
        else if decide (str_lower name = "accept") then Some "application/json"
        else if decide (str_lower name = "x-api-key")
             then (if truthy (api_key config) then api_key config else None)
             else ci_get name default_headers).
Proof.
  unfold HttpClient_init. cbn [session_headers].
  set (h0 := ci_update default_headers
               (<["Content-Type" := "application/json"]>
                  (<["Accept" := "application/json"]> ∅))).
  set (h1 := match api_key config with
             | Some k => if bool_decide (k = "") then h0
                         else ci_update h0 (<["X-API-Key" := k]> ∅)
             | None => h0
             end).
  split.
  - intros k v Hk Hname Huniq.
    rewrite bool_decide_eq_false_2 by (intros Hempty; rewrite Hempty, lookup_empty in Hk; discriminate).
    exact (proj2 (ci_get_update h1 (headers config)) name k v Hk Hname Huniq).
  - intros Hnone.
    assert (H2 : ci_get name (if bool_decide (headers config = ∅) then h1
                              else ci_update h1 (headers config)) = ci_get name h1).
    { case_bool_decide; [reflexivity|].
      exact (proj1 (ci_get_update h1 (headers config)) name Hnone). }
    rewrite H2. clear H2.
    assert (H0 : ci_get name h0
                 = if decide (str_lower name = "content-type") then Some "application/json"
                   else if decide (str_lower name = "accept") then Some "application/json"
                   else ci_get name default_headers).
    { unfold h0. case_decide as Hct; [|case_decide as Hacc].
      - apply (proj2 (ci_get_update _ _) name "Content-Type" "application/json").
        + reflexivity.
        + rewrite Hct. reflexivity.
        + intros k' Hk' Hin.
          destruct (decide (k' = "Content-Type")) as [->|Hne1]; [reflexivity|].
          rewrite lookup_insert_ne in Hin by congruence.
          destruct (decide (k' = "Accept")) as [->|Hne2];
            [rewrite Hct in Hk'; discriminate Hk'|].
          rewrite lookup_insert_ne, lookup_empty in Hin by congruence. contradiction.
      - apply (proj2 (ci_get_update _ _) name "Accept" "application/json").
        + reflexivity.
        + rewrite Hacc. reflexivity.
        + intros k' Hk' Hin.
          destruct (decide (k' = "Content-Type")) as [->|Hne1];
            [rewrite Hacc in Hk'; discriminate Hk'|].
          rewrite lookup_insert_ne in Hin by congruence.
          destruct (decide (k' = "Accept")) as [->|Hne2]; [reflexivity|].
          rewrite lookup_insert_ne, lookup_empty in Hin by congruence. contradiction.
      - apply (proj1 (ci_get_update _ _) name). intros k Hk.
        destruct (decide (k = "Content-Type")) as [->|Hne1]; [symmetry in Hk; contradiction|].
        rewrite lookup_insert_ne by congruence.
        destruct (decide (k = "Accept")) as [->|Hne2]; [symmetry in Hk; contradiction|].
        rewrite lookup_insert_ne, lookup_empty by congruence. reflexivity. }
    assert (Hnokey : str_lower name = "x-api-key" -> ci_get name h0 = None).
    { intros Hkey. rewrite H0. rewrite !decide_False by (rewrite Hkey; discriminate).
      unfold default_headers. rewrite !ci_get_set.
      rewrite !decide_False by (rewrite Hkey; discriminate). reflexivity. }
    unfold h1. destruct (api_key config) as [key|]; cbn [truthy].
    + case_bool_decide as Hempty; cbn [negb].
      * rewrite H0. repeat case_decide; try reflexivity.
        rewrite <- H0. apply Hnokey. assumption.
      * destruct (decide (str_lower name = "x-api-key")) as [Hkey|Hkey].
        -- rewrite !decide_False by (rewrite Hkey; discriminate).
           apply (proj2 (ci_get_update _ _) name "X-API-Key" key).
           ++ apply lookup_insert_eq.
           ++ rewrite Hkey. reflexivity.
           ++ intros k' Hk' Hin.
              destruct (decide (k' = "X-API-Key")) as [->|Hne1]; [reflexivity|].
              rewrite lookup_insert_ne, lookup_empty in Hin by congruence. contradiction.
        -- rewrite <- H0. apply (proj1 (ci_get_update _ _) name). intros k Hk.
           destruct (decide (k = "X-API-Key")) as [->|Hne1]; [symmetry in Hk; contradiction|].
           rewrite lookup_insert_ne, lookup_empty by congruence. reflexivity.
    + rewrite H0. repeat case_decide; try reflexivity.
      rewrite <- H0. apply Hnokey. assumption.
Qed.

End SessionHeaders.
(** ** More about the batcher and the facade *)

Lemma with_batch_queue_same (self : AILogger) :
  with_batch_queue (batch_queue self) self = self.
Proof. destruct self. reflexivity. Qed.

(** A batch of entries that [json.dumps] encodes one by one is encoded as
    a whole. *)
Lemma batch_body_total h entries :
  (forall entry, entry ∈ entries -> exists body, entry_body h entry = Return body) ->
  exists body, batch_body h entries = Return body.
Proof.
  intros Hall. destruct (batch_body h entries) as [body|e] eqn:Hbody; [eauto|].
  apply (proj2 (batch_body_documents h entries)) in Hbody as (entry & Hin & Hraise).
  destruct (Hall entry Hin) as (body & Hbody). congruence.
Qed.

(** X8: flushing repeatedly empties the queue without repeating or
    reordering entries: each flush takes one non-empty batch of at most
    [batch_size] entries, the batches put end to end are the queue, and
    the calls made are the POSTs of the batches that [json.dumps]
    encodes, in order; a batch it does not encode is not sent and not
    put back. When every queued entry can be encoded, every batch is
    sent. *)
Theorem repeated_flush_delivers_queue_in_order (n : nat) :
  forall (self : AILogger) (w : World),
  0 < batch_size (config self) -> (length (batch_queue self) <= n)%nat ->
  exists batches w',
    repeat_call n _send_batch (self, w) = (Return tt, (with_batch_queue [] self, w'))
    /\ calls w' = calls w ++ omap (batch_call self (heap w)) batches
    /\ concat batches = batch_queue self
    /\ Forall (fun b => b <> [] /\ Z.of_nat (length b) <= batch_size (config self)) batches
    /\ ((forall entry, entry ∈ batch_queue self ->
                       exists body, entry_body (heap w) entry = Return body) ->
        length (calls w') = (length (calls w) + length batches)%nat).
Proof.
  induction n as [|k IH]; intros self w Hbs Hlen.
  - destruct (batch_queue self) as [|e q] eqn:Hq; [|simpl in Hlen; lia].
    exists [], w. simpl. rewrite app_nil_r.
    rewrite <- Hq, with_batch_queue_same. repeat split; [constructor|lia].
  - destruct (batch_queue self) as [|e q] eqn:Hq.
    + destruct (IH self w Hbs) as (batches & w' & Hrun & Hcalls & Hcat & Hall & Hsent);
        [rewrite Hq; simpl; lia|].
      exists batches, w'. cbn [repeat_call]. unfold bind at 1.
      rewrite (_send_batch_empty self w Hq), Hrun.
      split; [reflexivity|]. split; [exact Hcalls|]. split; [rewrite Hcat; exact Hq|].
      split; [exact Hall|]. intros Henc. apply Hsent. rewrite Hq. exact Henc.
    + assert (Hne : batch_queue self <> []) by (rewrite Hq; discriminate).
      set (size := Z.to_nat (batch_size (config self))).
      set (self1 := with_batch_queue (drop size (batch_queue self)) self).
      set (w1 := after_delivery self "Error sending batch: " (_get_batch_url self)
                   (batch_body (heap w) (take size (batch_queue self))) w).
      assert (Hheap : heap w1 = heap w) by apply heap_after_delivery.
      destruct (IH self1 w1 Hbs) as (batches & w' & Hrun & Hcalls & Hcat & Hall & Hsent).
      { unfold self1. simpl. rewrite length_drop, Hq. simpl in *. lia. }
      exists (take size (batch_queue self) :: batches), w'.
      cbn [repeat_call]. unfold bind at 1.
      rewrite (_send_batch_nonempty self w Hbs Hne). fold size self1 w1. rewrite Hrun.
      assert (Hfirst : calls w1
                       = calls w ++ match batch_call self (heap w) (take size (batch_queue self)) with
                                    | Some c => [c]
                                    | None => []
                                    end).
      { unfold w1. rewrite calls_after_delivery. unfold batch_call.
        destruct (batch_body _ _); reflexivity. }
      split; [reflexivity|]. split; [|split; [|split]].
      * rewrite Hcalls, Hfirst, Hheap. cbn [omap list_omap].
        change (batch_call self1) with (batch_call self).
        destruct (batch_call self (heap w) (take size (batch_queue self)));
          rewrite <- app_assoc; reflexivity.
      * simpl. rewrite Hcat. unfold self1. simpl. rewrite <- Hq. apply take_drop.
      * constructor; [|exact Hall]. split.
        -- rewrite Hq. unfold size. destruct (Z.to_nat (batch_size (config self))) eqn:Hs; [lia|].
           discriminate.
        -- rewrite length_take. unfold size. lia.
      * intros Henc. rewrite Hsent.
        -- rewrite Hfirst. unfold batch_call.
           destruct (batch_body_total (heap w) (take size (batch_queue self))) as (body & Hbody).
           { intros entry Hin. apply Henc. rewrite <- Hq.
             rewrite <- (take_drop size (batch_queue self)). apply elem_of_app. left. exact Hin. }
           rewrite Hbody, length_app. simpl. lia.
        -- intros entry Hin. rewrite Hheap. apply Henc. rewrite <- Hq.
           rewrite <- (take_drop size (batch_queue self)). apply elem_of_app. right. exact Hin.
Qed.

(** X9: in batching mode the queue never holds [batch_size] entries after
    a [log] call: the call that brings it to [batch_size] takes them all
    in one batch, which is sent in one POST when [json.dumps] encodes it
    and dropped otherwise, and leaves the queue empty. *)
Theorem log_keeps_queue_below_batch_size uuid4 utcnow_isoformat format_exc
    (self : AILogger) (w : World) level message data exception :
  message <> "" ->
  async_enabled (config self) = true -> 1 < batch_size (config self) ->
  Z.of_nat (length (batch_queue self)) < batch_size (config self) ->
  exists entry self' w',
    log uuid4 utcnow_isoformat format_exc level message data exception (self, w)
    = (Return tt, (self', w'))
    /\ LogEntry_init uuid4 utcnow_isoformat format_exc level message
         (Some (merged_data (read_dict (context self) w) data)) exception w
       = (Return entry, count_created w)
    /\ config self' = config self
    /\ Z.of_nat (length (batch_queue self')) < batch_size (config self')
    /\ (Z.of_nat (length (batch_queue self)) + 1 < batch_size (config self) ->
        batch_queue self' = batch_queue self ++ [entry] /\ calls w' = calls w)
    /\ (Z.of_nat (length (batch_queue self)) + 1 = batch_size (config self) ->
        batch_queue self' = []
        /\ (forall body,
              batch_body (heap w) (batch_queue self ++ [entry]) = Return body ->
              calls w' = calls w ++ [mkSendCall "POST" (_get_batch_url self) (Some body)])
        /\ (forall e,
              batch_body (heap w) (batch_queue self ++ [entry]) = Raise e ->
              calls w' = calls w)).
Proof.
  intros Hmsg Hasync Hbs Hlen.
  destruct (log_builds_and_routes uuid4 utcnow_isoformat format_exc
              self w level message data exception Hmsg)
    as (entry & Hentry & _ & _ & _ & Hlog).
  exists entry. rewrite Hlog. unfold route. rewrite Hasync.
  replace (1 <? batch_size (config self)) with true by (symmetry; apply Z.ltb_lt; lia).
  rewrite _enqueue_log_entry_eq, length_app. simpl length.
  destruct (batch_size (config self) <=? Z.of_nat (length (batch_queue self) + 1)) eqn:Hfull.
  - apply Z.leb_le in Hfull.
    rewrite _send_batch_nonempty; simpl; [| lia | intros H; apply app_eq_nil in H as [_ H]; discriminate].
    eexists _, _. split; [reflexivity|]. split; [exact Hentry|]. simpl. split; [reflexivity|].
    rewrite drop_ge by (rewrite length_app; simpl; lia). simpl.
    rewrite take_ge by (rewrite length_app; simpl; lia).
    split; [lia|]. split; [intros Hbelow; lia|]. intros _. split; [reflexivity|]. split.
    + intros body Hbody. rewrite calls_after_delivery, Hbody. reflexivity.
    + intros e He. rewrite calls_after_delivery, He. apply app_nil_r.
  - apply Z.leb_gt in Hfull.
    eexists _, _. split; [reflexivity|]. split; [exact Hentry|]. simpl. split; [reflexivity|].
    rewrite length_app. simpl. split; [lia|]. split; [intros _; split; reflexivity|].
    intros Heq. lia.
Qed.

(** X10: a batch whose delivery fails is dropped, whether [json.dumps]
    fails to encode it or the client fails to send it: [_send_batch]
    returns, the entries it took are not put back, and the failure is
    printed when [debug_enabled] is set and leaves no trace otherwise. *)
Theorem failed_batch_is_dropped (self : AILogger) (w : World) (e : exn) (i : IO) :
  0 < batch_size (config self) -> batch_queue self <> [] ->
  let size := Z.to_nat (batch_size (config self)) in
  (batch_body (heap w) (take size (batch_queue self)) = Raise e /\ i = io w)
  \/ (exists body,
        batch_body (heap w) (take size (batch_queue self)) = Return body
        /\ http_client self "POST" (_get_batch_url self) (Some body) (io w) = (Raise e, i)) ->
  exists w',
    _send_batch (self, w) = (Return tt, (with_batch_queue (drop size (batch_queue self)) self, w'))
    /\ io w' = (if debug_enabled (config self)
                then i ++ [Printed ("Error sending batch: " +:+ exc_msg e)]
                else i)
    /\ heap w' = heap w /\ created w' = created w.
Proof.
  intros Hbs Hne size Hfail.
  rewrite (_send_batch_nonempty self w Hbs Hne). fold size.
  eexists. split; [reflexivity|].
  rewrite heap_after_delivery, created_after_delivery. split; [|split; reflexivity].
  destruct Hfail as [[Hdumps ->]|(body & Hdumps & Hsend)]; rewrite Hdumps; simpl.
  - destruct (debug_enabled (config self)); reflexivity.
  - unfold after_send. simpl. rewrite Hsend. simpl.
    destruct (debug_enabled (config self)); reflexivity.
Qed.

(** X11: the data of the next entry holds the keys and values the dict
    passed to [set_context] had at the time of the call, under the
    caller's data, whatever keys the caller sets, replaces or removes in
    its own dict in between. (A value that refers to a dict object is
    the same reference in the entry: the copy is shallow.) *)
Theorem context_set_is_context_logged uuid4 utcnow_isoformat format_exc
    (self : AILogger) (w : World) (l : loc) (d : Dict)
    (mutations : list (Dict -> Dict)) level message data exception :
  heap w !! l = Some d -> message <> "" ->
  exists copy w1 entry,
    set_context (Some l) (self, w) = (Return tt, (with_context copy self, w1))
    /\ log uuid4 utcnow_isoformat format_exc level message data exception
         (with_context copy self, mutate_all l mutations w1)
       = route (config self) entry
           (with_context copy self, count_created (mutate_all l mutations w1))
    /\ le_data entry = merged_data d data
    /\ (forall k n, d !! k = Some (Ref n) -> (data ≫= (fun c => c !! k)) = None ->
        le_data entry !! k = Some (Ref n)).
Proof.
  intros Hl Hmsg.
  destruct (set_context_some self w l d Hl) as (copy & Hset & Hne & _).
  set (w1 := with_heap (<[copy := d]> (heap w)) w) in *.
  destruct (log_builds_and_routes uuid4 utcnow_isoformat format_exc
              (with_context copy self) (mutate_all l mutations w1)
              level message data exception Hmsg)
    as (entry & _ & _ & _ & Hdata & Hlog).
  assert (Hmerged : le_data entry = merged_data d data).
  { rewrite Hdata. simpl context.
    rewrite read_dict_mutate_all_other by exact Hne.
    unfold read_dict, w1. simpl. rewrite lookup_insert_eq. reflexivity. }
  exists copy, w1, entry. split; [exact Hset|]. split; [exact Hlog|].
  split; [exact Hmerged|].
  intros k n Hk Hdata'. rewrite Hmerged, merged_data_lookup, Hdata'. exact Hk.
Qed.

(** X12: the batch endpoint is the single-entry endpoint followed by
    [/batch]; the namespace is a path segment of both unless it is empty
    or [default]. *)
Theorem batch_url_extends_log_url (self : AILogger) :
  _get_batch_url self = _get_log_url self +:+ "/batch"
  /\ (namespace (config self) = "" \/ namespace (config self) = "default" ->
      _get_log_url self = server_url (config self) +:+ "/logs/" +:+ log_name self)
  /\ (namespace (config self) <> "" -> namespace (config self) <> "default" ->
      _get_log_url self
      = server_url (config self) +:+ "/" +:+ namespace (config self)
          +:+ "/logs/" +:+ log_name self).
Proof.
  assert (Hassoc : forall a b c : string, (a +:+ b) +:+ c = a +:+ (b +:+ c)).
  { intros a b c. induction a as [|ch a IH]; [reflexivity|].
    change (String ch ((a +:+ b) +:+ c) = String ch (a +:+ (b +:+ c))).
    f_equal. exact IH. }
  unfold _get_batch_url, _get_log_url. split; [|split].
  - destruct (negb _ && negb _); rewrite !Hassoc; reflexivity.
  - intros [H|H]; rewrite H; [reflexivity|].
    rewrite (bool_decide_eq_true_2 _ eq_refl), andb_false_r. reflexivity.
  - intros H1 H2. rewrite !bool_decide_eq_false_2 by assumption. reflexivity.
Qed.
(** ** The document of an entry *)

Lemma level_value_inj l1 l2 : level_value l1 = level_value l2 -> l1 = l2.
Proof. destruct l1, l2; simpl; intros H; try reflexivity; discriminate H. Qed.

Lemma ExceptionInfo_to_dict_lookups type message stack_trace inner :
  let d := ExceptionInfo_to_dict (mkExceptionInfo type message stack_trace inner) in
  d !! "type" = Some (JStr type)
  /\ d !! "message" = Some (JStr message)
  /\ d !! "stackTrace" = Some (JStr stack_trace)
  /\ d !! "innerException" = (fun i => JObj (ExceptionInfo_to_dict i)) <$> inner.
Proof.
  destruct inner as [i|]; simpl;
    repeat (rewrite lookup_insert_eq || (rewrite lookup_insert_ne by discriminate)
            || rewrite lookup_empty);
    repeat split; reflexivity.
Qed.

Lemma ExceptionInfo_to_dict_inj (n : nat) : forall a b,
  (chain_length a <= n)%nat ->
  ExceptionInfo_to_dict a = ExceptionInfo_to_dict b -> a = b.
Proof.
  induction n as [|n IH]; intros [t1 m1 s1 i1] [t2 m2 s2 i2] Hn Heq;
    destruct (ExceptionInfo_to_dict_lookups t1 m1 s1 i1) as (Ht1 & Hm1 & Hs1 & Hi1);
    destruct (ExceptionInfo_to_dict_lookups t2 m2 s2 i2) as (Ht2 & Hm2 & Hs2 & Hi2);
    cbv zeta in *; rewrite Heq in Ht1, Hm1, Hs1, Hi1;
    rewrite Ht2 in Ht1; rewrite Hm2 in Hm1; rewrite Hs2 in Hs1; rewrite Hi2 in Hi1;
    injection Ht1 as <-; injection Hm1 as <-; injection Hs1 as <-;
    destruct i1 as [i1|], i2 as [i2|]; simpl in Hi1; try discriminate Hi1;
    try reflexivity.
  - simpl in Hn. lia.
  - injection Hi1 as Hi. simpl in Hn.
    rewrite (IH i1 i2 ltac:(lia) (eq_sym Hi)). reflexivity.
Qed.

Lemma LogEntry_to_dict_lookups (entry : LogEntry) :
  let d := LogEntry_to_dict entry in
  d !! "id" = Some (JStr (le_id entry))
  /\ d !! "timestamp" = Some (JStr (le_timestamp entry))
  /\ d !! "level" = Some (JStr (level_value (le_level entry)))
  /\ d !! "message" = Some (JStr (le_message entry))
  /\ d !! "data" = Some (JObj (le_data entry))
  /\ d !! "exception" = (fun i => JObj (ExceptionInfo_to_dict i)) <$> le_exception entry.
Proof.
  unfold LogEntry_to_dict. destruct (le_exception entry) as [i|]; simpl;
    repeat (rewrite lookup_insert_eq || (rewrite lookup_insert_ne by discriminate)
            || rewrite lookup_empty);
    repeat split; reflexivity.
Qed.

(** X13: the document sent for an entry carries every field of the entry:
    two entries with the same document are the same entry, the five
    fields are always present and the [exception] key is present exactly
    when the entry has an exception. *)
Theorem LogEntry_to_dict_loses_nothing (a b : LogEntry) :
  (LogEntry_to_dict a = LogEntry_to_dict b -> a = b)
  /\ LogEntry_to_dict a !! "id" = Some (JStr (le_id a))
  /\ LogEntry_to_dict a !! "timestamp" = Some (JStr (le_timestamp a))
  /\ LogEntry_to_dict a !! "level" = Some (JStr (level_value (le_level a)))
  /\ LogEntry_to_dict a !! "message" = Some (JStr (le_message a))
  /\ LogEntry_to_dict a !! "data" = Some (JObj (le_data a))
  /\ (LogEntry_to_dict a !! "exception" = None <-> le_exception a = None).
Proof.
  destruct (LogEntry_to_dict_lookups a) as (Hid & Hts & Hlv & Hmsg & Hdata & Hexc).
  cbv zeta in *. split; [|repeat split; try assumption].
  - intros Heq.
    destruct (LogEntry_to_dict_lookups b) as (Hid' & Hts' & Hlv' & Hmsg' & Hdata' & Hexc').
    cbv zeta in *. rewrite Heq in Hid, Hts, Hlv, Hmsg, Hdata, Hexc.
    rewrite Hid' in Hid. rewrite Hts' in Hts. rewrite Hlv' in Hlv.
    rewrite Hmsg' in Hmsg. rewrite Hdata' in Hdata. rewrite Hexc' in Hexc.
    destruct a as [id1 ts1 lv1 msg1 d1 e1], b as [id2 ts2 lv2 msg2 d2 e2]. simpl in *.
    injection Hid as <-. injection Hts as <-. injection Hmsg as <-. injection Hdata as <-.
    injection Hlv as Hlv. apply level_value_inj in Hlv. subst lv1.
    destruct e1 as [i1|], e2 as [i2|]; simpl in Hexc; try discriminate Hexc; [|reflexivity].
    injection Hexc as Hexc.
    rewrite (ExceptionInfo_to_dict_inj (chain_length i1) i1 i2 (Nat.le_refl _) (eq_sym Hexc)).
    reflexivity.
  - rewrite Hexc. destruct (le_exception a); simpl; [discriminate|reflexivity].
  - intros H. rewrite Hexc, H. reflexivity.
Qed.
(** ** More about the registry *)

Section RegistryInvariant.

Context {platform : Platform}.
Variable session_request : nat -> Request -> Res Response.

(** The state a first [get_logger] for a name leaves behind. *)
Lemma get_logger_new_state rt name :
  name <> "" -> _loggers rt !! name = None ->
  exists l rt1 logger,
    get_logger session_request name rt = (Return l, rt1)
    /\ _config rt1 = _config rt
    /\ _loggers rt1 = <[name := l]> (_loggers rt)
    /\ _global_context rt1 = _global_context rt
    /\ objects rt1 = <[l := logger]> (objects rt)
    /\ objects rt !! l = None
    /\ log_name logger = name
    /\ config logger = _config rt
    /\ batch_queue logger = []
    /\ (forall l0 d, heap (world rt) !! l0 = Some d -> heap (world rt1) !! l0 = Some d).
Proof.
  intros Hne Hnone. unfold get_logger. rewrite bool_decide_eq_false_2 by exact Hne.
  unfold bind at 1, get at 1. rewrite Hnone.
  destruct (AILogger_init_eq session_request name (_config rt) None (world rt))
    as (logger0 & Hinit & Hname & Hcfg & Hctx & Hqueue).
  assert (Hobj : objects rt !! fresh (dom (objects rt)) = None).
  { apply not_elem_of_dom, is_fresh. }
  assert (Hfresh : heap (world rt) !! fresh (dom (heap (world rt))) = None).
  { apply not_elem_of_dom, is_fresh. }
  set (w1 := with_heap (<[fresh (dom (heap (world rt))) := ∅]> (heap (world rt))) (world rt))
    in *.
  assert (Hkept : forall l0 d, heap (world rt) !! l0 = Some d -> heap w1 !! l0 = Some d).
  { intros l0 d Hd. unfold w1. simpl. rewrite lookup_insert_ne; [exact Hd|].
    intros Heq. rewrite Heq in Hfresh. congruence. }
  unfold bind at 1, bind at 1, in_world at 1. rewrite Hinit.
  unfold bind at 1, get at 1. cbn [_global_context world with_world].
  destruct (bool_decide (read_dict (_global_context rt) w1 = ∅)) eqn:Hglobal.
  - unfold bind, ret, alloc_object, modify, get. simpl.
    rewrite lookup_insert_eq.
    eexists _, _, logger0. split; [reflexivity|]. simpl.
    repeat (split; [assumption || reflexivity|]). exact Hkept.
  - unfold bind, ret, call_on, alloc_object, modify, get. simpl.
    unfold set_context, bind, on_world, dict_copy, alloc_dict, update_self, modify. simpl.
    rewrite lookup_insert_eq.
    eexists _, _, _. split; [reflexivity|]. simpl.
    repeat (split; [assumption || reflexivity|]).
    intros l0 d Hd. specialize (Hkept l0 d Hd).
    rewrite lookup_insert_ne; [exact Hkept|].
    intros Heq. change (fresh (dom (heap w1)) = l0) in Heq.
    apply (is_fresh (dom (heap w1))). rewrite Heq. apply elem_of_dom. eauto.
Qed.

Lemma get_logger_keeps_wf rt name :
  registry_wf rt -> registry_wf (snd (get_logger session_request name rt)).
Proof.
  intros Hwf. destruct (decide (name = "")) as [->|Hne]; [exact Hwf|].
  destruct (_loggers rt !! name) as [l|] eqn:Hfound.
  - rewrite (get_logger_existing session_request rt name l Hne Hfound). exact Hwf.
  - destruct (get_logger_new_state rt name Hne Hfound)
      as (l & rt1 & logger & Hrun & _ & Hreg & _ & Hobjs & Hnew & Hname & _).
    rewrite Hrun. simpl. intros name' l' Hl'. rewrite Hreg in Hl'. rewrite Hobjs.
    destruct (decide (name = name')) as [<-|Hother].
    + rewrite lookup_insert_eq in Hl'. injection Hl' as <-.
      exists logger. rewrite lookup_insert_eq. split; [reflexivity|exact Hname].
    + rewrite lookup_insert_ne in Hl' by exact Hother.
      destruct (Hwf name' l' Hl') as (logger' & Hobj' & Hname').
      exists logger'. split; [|exact Hname'].
      rewrite lookup_insert_ne; [exact Hobj'|]. intros <-. congruence.
Qed.


(** A loop whose body returns and extends an invariant over the elements
    visited so far. *)
Lemma for_each_invariant {S A} (body : A -> Py S unit) (P : list A -> S -> Prop)
    (xs : list A) : forall done s,
  P done s ->
  (forall done x s, P done s -> x ∈ xs ->
     exists s', body x s = (Return tt, s') /\ P (done ++ [x]) s') ->
  exists s', for_each xs body s = (Return tt, s') /\ P (done ++ xs) s'.
Proof.
  induction xs as [|x rest IH]; intros done s HP Hstep.
  - exists s. rewrite app_nil_r. split; [reflexivity|exact HP].
  - destruct (Hstep done x s HP (list_elem_of_here _ _)) as (s1 & Hbody & HP1).
    destruct (IH (done ++ [x]) s1 HP1) as (s' & Hrest & HP').
    { intros done' y s0 HP0 Hy. apply Hstep; [exact HP0|]. apply list_elem_of_further, Hy. }
    exists s'. cbn [for_each]. unfold bind. rewrite Hbody, Hrest.
    split; [reflexivity|]. rewrite <- app_assoc in HP'. exact HP'.
Qed.

Lemma set_context_eq (logger : AILogger) (w : World) (g : loc) :
  set_context (Some g) (logger, w)
  = (Return tt,
     (with_context (fresh (dom (heap w))) logger,
      with_heap (<[fresh (dom (heap w)) := read_dict g w]> (heap w)) w)).
Proof. reflexivity. Qed.

Lemma broadcast_step c g d registered todo done x rt :
  broadcast_state c g d registered todo done rt -> x ∈ todo ->
  exists rt',
    call_method_of x.2 (set_context (Some g)) rt = (Return tt, rt')
    /\ broadcast_state c g d registered todo (done ++ [x]) rt'.
Proof.
  intros (Hreg & Hg & Hd & Hc & Hall & Hdone) Hx.
  destruct (Hall x) as (logger & Hobj & Hname); [apply elem_of_app; left; exact Hx|].
  unfold call_method_of. rewrite Hobj, set_context_eq.
  eexists. split; [reflexivity|].
  set (copy := fresh (dom (heap (world rt)))).
  assert (Hfresh : heap (world rt) !! copy = None) by apply not_elem_of_dom, is_fresh.
  assert (Hread : read_dict g (world rt) = d) by (unfold read_dict; rewrite Hd; reflexivity).
  rewrite Hread.
  assert (Hkept : forall l0 d0, heap (world rt) !! l0 = Some d0 ->
                                <[copy := d]> (heap (world rt)) !! l0 = Some d0).
  { intros l0 d0 H0. rewrite lookup_insert_ne; [exact H0|]. intros <-. congruence. }
  split; [exact Hreg|]. split; [exact Hg|]. split; [apply Hkept, Hd|].
  split; [apply Hkept, Hc|]. split.
  - intros y Hy.
    assert (Hy' : y ∈ todo ++ done).
    { rewrite !elem_of_app in Hy. rewrite elem_of_app.
      destruct Hy as [Hy|[Hy|Hy]]; [left; exact Hy|right; exact Hy|].
      apply list_elem_of_singleton in Hy. subst y. left. exact Hx. }
    destruct (Hall y Hy') as (logger' & Hobj' & Hname'). simpl.
    destruct (decide (x.2 = y.2)) as [Heq|Hneq].
    + rewrite Heq, lookup_insert_eq. eexists. split; [reflexivity|]. simpl.
      rewrite Heq in Hobj. rewrite Hobj in Hobj'. injection Hobj' as <-. exact Hname'.
    + rewrite lookup_insert_ne by exact Hneq. eauto.
  - intros y Hy. simpl. destruct (decide (x.2 = y.2)) as [Heq|Hneq].
    + rewrite Heq, lookup_insert_eq. eexists. split; [reflexivity|]. simpl.
      split; [intros Hcopy; fold copy in Hcopy; congruence|apply lookup_insert_eq].
    + rewrite lookup_insert_ne by exact Hneq.
      apply elem_of_app in Hy as [Hy|Hy].
      * destruct (Hdone y Hy) as (logger' & Hobj' & Hown' & Hctx'). eauto.
      * apply list_elem_of_singleton in Hy. subst y. contradiction.
Qed.

(** X15: [set_global_context] raises a [ValueError] for [None] and changes
    nothing; given a dict, it makes the global context a copy of it and
    gives every registered logger a context with the same content, each
    in a dict object other than the one passed in. *)
Theorem set_global_context_reaches_every_logger rt (arg : option loc) :
  registry_wf rt ->
  (arg = None ->
   set_global_context arg rt
   = (Raise (Exn ValueError "Context cannot be None" None), rt))
  /\ (forall c d, arg = Some c -> heap (world rt) !! c = Some d ->
      exists rt',
        set_global_context arg rt = (Return tt, rt')
        /\ _loggers rt' = _loggers rt
        /\ _global_context rt' <> c
        /\ read_dict (_global_context rt') (world rt') = d
        /\ read_dict c (world rt') = d
        /\ forall name l, _loggers rt !! name = Some l ->
             exists logger,
               objects rt' !! l = Some logger
               /\ log_name logger = name
               /\ context logger <> c
               /\ read_dict (context logger) (world rt') = d).
Proof.
  intros Hwf. split; [intros ->; reflexivity|].
  intros c d -> Hc. unfold set_global_context.
  destruct (dict_copy_fresh c d (world rt) Hc) as (g & Hcopy & Hgc & Hgnew).
  unfold bind at 1, in_world at 1. rewrite Hcopy.
  unfold bind at 1, modify at 1. unfold bind at 1, get at 1. cbn [fst snd].
  set (rt0 := with_global_context g
                (with_world (with_heap (<[g := d]> (heap (world rt))) (world rt)) rt)).
  change (_loggers rt0) with (_loggers rt). change (_global_context rt0) with g.
  destruct (for_each_invariant
              (fun entry => call_method_of entry.2 (set_context (Some g)))
              (fun done rt1 => broadcast_state c g d (_loggers rt)
                                 (map_to_list (_loggers rt)) done rt1)
              (map_to_list (_loggers rt)) [] rt0) as (rt' & Hrun & Hstate).
  - split; [reflexivity|]. split; [reflexivity|]. split; [apply lookup_insert_eq|].
    split; [simpl; rewrite lookup_insert_ne by exact Hgc; exact Hc|]. split.
    + intros x Hx. rewrite app_nil_r in Hx. destruct x as [name l].
      apply elem_of_map_to_list in Hx. exact (Hwf name l Hx).
    + intros x Hx. apply elem_of_nil in Hx. contradiction.
  - intros done x rt1 Hstate Hx. apply (broadcast_step c g d _ _ _ x rt1 Hstate Hx).
  - exists rt'. split; [exact Hrun|].
    destruct Hstate as (Hreg & Hg & Hd & Hckept & Hall & Hdone).
    split; [exact Hreg|]. split; [rewrite Hg; exact Hgc|].
    split; [unfold read_dict; rewrite Hg, Hd; reflexivity|].
    split; [unfold read_dict; rewrite Hckept; reflexivity|].
    intros name l Hl.
    assert (Hin : (name, l) ∈ map_to_list (_loggers rt)) by (apply elem_of_map_to_list; exact Hl).
    destruct (Hdone (name, l) Hin) as (logger & Hobj & Hown & Hctx).
    destruct (Hall (name, l)) as (logger' & Hobj' & Hname'); [apply elem_of_app; left; exact Hin|].
    simpl in *. rewrite Hobj in Hobj'. injection Hobj' as <-.
    exists logger. split; [exact Hobj|]. split; [exact Hname'|]. split; [exact Hown|].
    unfold read_dict. rewrite Hctx. reflexivity.
Qed.

Lemma _send_batch_effect (logger : AILogger) (w : World) :
  exists queue w', _send_batch (logger, w) = (Return tt, (with_batch_queue queue logger, w')).
Proof.
  destruct (batch_queue logger) as [|first rest] eqn:Hq.
  - exists [], w. rewrite (_send_batch_empty logger w Hq), <- Hq, with_batch_queue_same.
    reflexivity.
  - unfold _send_batch, bind at 1, self_ at 1, gets at 1. simpl. rewrite Hq.
    destruct (drain _ _ _) as [rest' [|e es]].
    + eexists _, _. reflexivity.
    + unfold bind at 1, update_self at 1, modify at 1. simpl.
      eexists _, _. apply (guarded_delivery _ "Error sending batch: ").
Qed.

Lemma flush_effect (logger : AILogger) (w : World) :
  exists queue w', flush (logger, w) = (Return tt, (with_batch_queue queue logger, w')).
Proof.
  unfold flush, bind, self_, gets. simpl.
  destruct (async_enabled (config logger) && (1 <? batch_size (config logger))).
  - apply _send_batch_effect.
  - exists (batch_queue logger), w. rewrite with_batch_queue_same. reflexivity.
Qed.

Lemma flush_flushable (logger : AILogger) (w : World) :
  flushable logger ->
  exists w', flush (logger, w) = (Return tt, (with_batch_queue [] logger, w')).
Proof.
  intros Hready. unfold flush, bind, self_, gets. simpl.
  destruct (batch_queue logger) as [|first rest] eqn:Hq.
  - exists w.
    assert (Hsame : with_batch_queue [] logger = logger)
      by (rewrite <- Hq; apply with_batch_queue_same).
    rewrite Hsame.
    destruct (_ && _); [apply _send_batch_empty; exact Hq|reflexivity].
  - destruct Hready as [Hempty|(Hasync & Hbs & Hlen)]; [congruence|].
    rewrite Hasync. replace (1 <? batch_size (config logger)) with true
      by (symmetry; apply Z.ltb_lt; exact Hbs).
    simpl. rewrite _send_batch_nonempty; [|lia|rewrite Hq; discriminate].
    rewrite drop_ge by (rewrite Hq in *; lia). eexists. reflexivity.
Qed.

(** A loop that calls a method on every registered logger keeps the
    registry, when the method returns and keeps the logger's name. *)
Lemma method_loop_keeps_wf (m : M unit) rt :
  (forall logger w, exists logger' w',
      m (logger, w) = (Return tt, (logger', w')) /\ log_name logger' = log_name logger) ->
  registry_wf rt ->
  exists rt',
    for_each (map_to_list (_loggers rt)) (fun entry => call_method_of entry.2 m) rt
    = (Return tt, rt')
    /\ registry_wf rt'
    /\ _loggers rt' = _loggers rt
    /\ _config rt' = _config rt
    /\ _global_context rt' = _global_context rt.
Proof.
  intros Hm Hwf.
  destruct (for_each_invariant
              (fun entry => call_method_of entry.2 m)
              (fun (_ : list (string * loc)) rt1 =>
                 _loggers rt1 = _loggers rt /\ _config rt1 = _config rt
                 /\ _global_context rt1 = _global_context rt /\ registry_wf rt1)
              (map_to_list (_loggers rt)) [] rt) as (rt' & Hrun & Hreg & Hcfg & Hg & Hwf').
  - auto.
  - intros done [name l] rt1 (Hreg & Hcfg & Hg & Hwf1) Hx. simpl.
    apply elem_of_map_to_list in Hx. rewrite <- Hreg in Hx.
    destruct (Hwf1 name l Hx) as (logger & Hobj & Hname).
    destruct (Hm logger (world rt1)) as (logger' & w' & Hrun & Hname').
    unfold call_method_of. rewrite Hobj, Hrun. eexists. split; [reflexivity|].
    simpl. repeat (split; [assumption|]).
    intros name0 l0 H0. simpl in *.
    destruct (Hwf1 name0 l0 H0) as (logger0 & Hobj0 & Hname0).
    destruct (decide (l = l0)) as [<-|Hneq].
    + rewrite lookup_insert_eq. exists logger'. split; [reflexivity|]. congruence.
    + rewrite lookup_insert_ne by exact Hneq. eauto.
  - exists rt'. auto.
Qed.

(** X16: the registry stays well formed: it is when the process starts, and
    [configure], [get_logger], [set_global_context] and [flush_all] keep
    it so, whether they return or raise. *)
Theorem registry_stays_well_formed :
  registry_wf initial_runtime
  /\ (forall rt config, registry_wf rt -> registry_wf (snd (configure config rt)))
  /\ (forall rt name, registry_wf rt ->
        registry_wf (snd (get_logger session_request name rt)))
  /\ (forall rt arg, registry_wf rt -> registry_wf (snd (set_global_context arg rt)))
  /\ (forall rt, registry_wf rt -> registry_wf (snd (flush_all rt))).
Proof.
  split; [|split; [|split; [|split]]].
  - intros name l H. simpl in H. rewrite lookup_empty in H. discriminate.
  - intros rt [c|] Hwf; simpl; exact Hwf.
  - intros rt name. apply get_logger_keeps_wf.
  - intros rt [c|] Hwf; [|exact Hwf]. unfold set_global_context.
    unfold bind at 1, in_world at 1, dict_copy, alloc_dict. simpl.
    unfold bind at 1, modify at 1. unfold bind at 1, get at 1. cbn [fst snd].
    match goal with
    | |- registry_wf (snd (for_each _ _ ?rt0)) =>
        destruct (method_loop_keeps_wf
                    (set_context (Some (_global_context rt0))) rt0) as (rt' & Hrun & Hwf' & _)
    end.
    + intros logger w. rewrite set_context_eq. eexists _, _. split; reflexivity.
    + exact Hwf.
    + simpl in Hrun. simpl. rewrite Hrun. exact Hwf'.
  - intros rt Hwf. unfold flush_all, bind, get.
    destruct (method_loop_keeps_wf flush rt) as (rt' & Hrun & Hwf' & _).
    + intros logger w. destruct (flush_effect logger w) as (queue & w' & Hrun).
      rewrite Hrun. eexists _, _. split; reflexivity.
    + exact Hwf.
    + rewrite Hrun. exact Hwf'.
Qed.

Lemma flush_all_step registered todo done x rt :
  flush_all_state registered todo done rt -> x ∈ todo ->
  exists rt',
    call_method_of x.2 flush rt = (Return tt, rt')
    /\ flush_all_state registered todo (done ++ [x]) rt'.
Proof.
  intros (Hreg & Hall & Hdone) Hx.
  destruct (Hall x) as (logger & Hobj & Hname & Hready); [apply elem_of_app; left; exact Hx|].
  destruct (flush_flushable logger (world rt) Hready) as (w' & Hflush).
  unfold call_method_of. rewrite Hobj, Hflush. eexists. split; [reflexivity|].
  split; [exact Hreg|]. split.
  - intros y Hy.
    assert (Hy' : y ∈ todo ++ done).
    { rewrite !elem_of_app in Hy. rewrite elem_of_app.
      destruct Hy as [Hy|[Hy|Hy]]; [left; exact Hy|right; exact Hy|].
      apply list_elem_of_singleton in Hy. subst y. left. exact Hx. }
    destruct (Hall y Hy') as (logger' & Hobj' & Hname' & Hready'). simpl.
    destruct (decide (x.2 = y.2)) as [Heq|Hneq].
    + rewrite Heq, lookup_insert_eq. eexists. split; [reflexivity|]. simpl.
      rewrite Heq in Hobj. rewrite Hobj in Hobj'. injection Hobj' as <-.
      split; [exact Hname'|]. left. reflexivity.
    + rewrite lookup_insert_ne by exact Hneq. eauto.
  - intros y Hy. simpl. destruct (decide (x.2 = y.2)) as [Heq|Hneq].
    + rewrite Heq, lookup_insert_eq. eexists. split; reflexivity.
    + rewrite lookup_insert_ne by exact Hneq.
      apply elem_of_app in Hy as [Hy|Hy].
      * exact (Hdone y Hy).
      * apply list_elem_of_singleton in Hy. subst y. contradiction.
Qed.

(** X17: [flush_all] returns and leaves every registered logger with an
    empty queue, when each of them is flushable (its queue is empty, or it
    batches and holds at most one batch); the registered names stay as
    they are. *)
Theorem flush_all_empties_queues rt :
  registry_wf rt ->
  (forall name l logger, _loggers rt !! name = Some l -> objects rt !! l = Some logger ->
                         flushable logger) ->
  exists rt',
    flush_all rt = (Return tt, rt')
    /\ _loggers rt' = _loggers rt
    /\ forall name l, _loggers rt !! name = Some l ->
         exists logger,
           objects rt' !! l = Some logger
           /\ log_name logger = name
           /\ batch_queue logger = [].
Proof.
  intros Hwf Hready. unfold flush_all, bind, get.
  destruct (for_each_invariant
              (fun entry => call_method_of entry.2 flush)
              (fun done rt1 => flush_all_state (_loggers rt) (map_to_list (_loggers rt)) done rt1)
              (map_to_list (_loggers rt)) [] rt) as (rt' & Hrun & Hreg & Hall & Hdone).
  - split; [reflexivity|]. split.
    + intros [name l] Hx. rewrite app_nil_r in Hx. apply elem_of_map_to_list in Hx.
      destruct (Hwf name l Hx) as (logger & Hobj & Hname).
      exists logger. split; [exact Hobj|]. split; [exact Hname|].
      exact (Hready name l logger Hx Hobj).
    + intros x Hx. apply elem_of_nil in Hx. contradiction.
  - intros done x rt1 Hstate Hx. exact (flush_all_step _ _ _ x rt1 Hstate Hx).
  - exists rt'. rewrite Hrun. split; [reflexivity|]. split; [exact Hreg|].
    intros name l Hl.
    assert (Hin : (name, l) ∈ map_to_list (_loggers rt)) by (apply elem_of_map_to_list; exact Hl).
    destruct (Hdone (name, l) Hin) as (logger & Hobj & Hqueue).
    destruct (Hall (name, l)) as (logger' & Hobj' & Hname' & _);
      [apply elem_of_app; left; exact Hin|].
    simpl in *. rewrite Hobj in Hobj'. injection Hobj' as <-.
    exists logger. auto.
Qed.


End RegistryInvariant.
(** ** The adapters *)

(** X19: the level conversion of the [logging] handler keeps the order of
    severities, maps the five standard levels to their namesakes
    ([CRITICAL] to [FATAL]), and sends everything below [INFO], [NOTSET]
    and negative numbers included, to [DEBUG]. *)
Theorem handler_convert_level_monotone (a b : Z) :
  (a <= b ->
   severity (NeuralLogHandler._convert_level a) <= severity (NeuralLogHandler._convert_level b))
  /\ NeuralLogHandler._convert_level logging_DEBUG = DEBUG
  /\ NeuralLogHandler._convert_level logging_INFO = INFO
  /\ NeuralLogHandler._convert_level logging_WARNING = WARNING
  /\ NeuralLogHandler._convert_level logging_ERROR = ERROR
  /\ NeuralLogHandler._convert_level logging_CRITICAL = FATAL
  /\ (a < logging_INFO -> NeuralLogHandler._convert_level a = DEBUG).
Proof.
  unfold NeuralLogHandler._convert_level, logging_CRITICAL, logging_ERROR, logging_WARNING,
    logging_INFO, logging_DEBUG.
  repeat split; try reflexivity.
  - intros Hab.
    repeat match goal with
           | |- context [?x <=? ?y] => destruct (Z.leb_spec x y)
           end; simpl; lia.
  - intros Ha.
    repeat match goal with
           | |- context [?x <=? ?y] => destruct (Z.leb_spec x y)
           end; try reflexivity; lia.
Qed.

Lemma ascii_lower_idempotent c : ascii_lower (ascii_lower c) = ascii_lower c.
Proof.
  destruct c as [[] [] [] [] [] [] [] []]; vm_compute; reflexivity.
Qed.

Lemma str_lower_idempotent s : str_lower (str_lower s) = str_lower s.
Proof.
  induction s as [|c s IH]; simpl; [reflexivity|].
  rewrite ascii_lower_idempotent, IH. reflexivity.
Qed.

(** X20: the level conversion of the Loguru sink ignores letter case, maps
    every level of the SDK back from its name, takes [critical] for
    [FATAL], and sends every other name to [DEBUG]. *)
Theorem sink_convert_level_by_name (s : string) :
  NeuralLogSink._convert_level (str_lower s) = NeuralLogSink._convert_level s
  /\ (forall l, str_lower s = level_value l -> NeuralLogSink._convert_level s = l)
  /\ (str_lower s = "critical" -> NeuralLogSink._convert_level s = FATAL)
  /\ (str_lower s ∉ ["critical"; "fatal"; "error"; "warning"; "info"] ->
      NeuralLogSink._convert_level s = DEBUG).
Proof.
  unfold NeuralLogSink._convert_level. split; [rewrite str_lower_idempotent; reflexivity|].
  split; [|split].
  - intros l Hl. rewrite Hl. destruct l; reflexivity.
  - intros ->. reflexivity.
  - intros Hnot. rewrite !bool_decide_eq_false_2; [reflexivity|..];
      intros Heq; apply Hnot; rewrite Heq; set_solver.
Qed.

(** X21: in the data the [logging] handler extracts, an extra attribute of
    the record wins over a key of [record.data], which wins over the six
    standard fields; attributes with a reserved name are never copied. *)
Theorem handler_extract_data_precedence (record : LogRecord) (k : string) :
  NeuralLogHandler._extract_data record !! k
  = match rec_others record !! k with
    | Some v =>
        if decide (k ∈ reserved_attributes)
        then match rec_data record with
             | Some (JObj d) =>
                 match d !! k with
                 | Some v' => Some v'
                 | None => NeuralLogHandler.standard_fields record !! k
                 end
             | _ => NeuralLogHandler.standard_fields record !! k
             end
        else Some v
    | None =>
        match rec_data record with
        | Some (JObj d) =>
            match d !! k with
            | Some v' => Some v'
            | None => NeuralLogHandler.standard_fields record !! k
            end
        | _ => NeuralLogHandler.standard_fields record !! k
        end
    end.
Proof.
  unfold NeuralLogHandler._extract_data, dict_update.
  set (base := match rec_data record with
               | Some (JObj d) => d ∪ NeuralLogHandler.standard_fields record
               | _ => NeuralLogHandler.standard_fields record
               end).
  assert (Hbase : base !! k
                  = match rec_data record with
                    | Some (JObj d) =>
                        match d !! k with
                        | Some v' => Some v'
                        | None => NeuralLogHandler.standard_fields record !! k
                        end
                    | _ => NeuralLogHandler.standard_fields record !! k
                    end).
  { unfold base. destruct (rec_data record) as [[| | | | |d| |]|]; try reflexivity.
    rewrite lookup_union. destruct (d !! k), (NeuralLogHandler.standard_fields record !! k);
      reflexivity. }
  rewrite <- Hbase. rewrite lookup_union.
  destruct (rec_others record !! k) as [v|] eqn:Hother.
  - case_decide as Hres.
    + rewrite (proj2 (map_lookup_filter_None _ _ _)).
      * destruct (base !! k); reflexivity.
      * right. intros x Hx. simpl. intros Hnot. contradiction.
    + rewrite (proj2 (map_lookup_filter_Some _ _ _ v)).
      * destruct (base !! k); reflexivity.
      * split; [exact Hother|exact Hres].
  - rewrite (proj2 (map_lookup_filter_None _ _ _)).
    + destruct (base !! k); reflexivity.
    + left. exact Hother.
Qed.

(** X22: in the data the Loguru sink extracts, a key of the record's
    [extra] wins over the standard field of the same name, and the six
    standard fields are [logger], [file], [line], [function], [thread]
    and [process]. *)
Theorem sink_extract_data_precedence (record : LoguruRecord) (k : string) :
  NeuralLogSink._extract_data record !! k
  = match lr_extra record !! k with
    | Some v => Some v
    | None => NeuralLogSink.standard_fields record !! k
    end
  /\ dom (NeuralLogSink.standard_fields record)
     = list_to_set ["logger"; "file"; "line"; "function"; "thread"; "process"].
Proof.
  split.
  - unfold NeuralLogSink._extract_data, dict_update. rewrite lookup_union.
    destruct (lr_extra record !! k), (NeuralLogSink.standard_fields record !! k); reflexivity.
  - unfold NeuralLogSink.standard_fields. rewrite !dom_insert_L, dom_empty_L. set_solver.
Qed.

Section AdapterProperties.

Context {platform : Platform}.
Variable session_request : nat -> Request -> Res Response.
Variable uuid4 : nat -> string.
Variable utcnow_isoformat : nat -> string.
Variable format_exc : string.

Lemma with_world_same (rt : Runtime) : with_world (world rt) rt = rt.
Proof. destruct rt. reflexivity. Qed.

(** A method call that raises and leaves the logger and the world as they
    were leaves the whole process as it was. *)
Lemma call_method_of_raise {A} (m : M A) l logger rt e :
  objects rt !! l = Some logger ->
  m (logger, world rt) = (Raise e, (logger, world rt)) ->
  call_method_of l m rt = (Raise e, rt).
Proof.
  intros Hobj Hm. unfold call_method_of. rewrite Hobj, Hm.
  rewrite with_world_same, insert_id by exact Hobj.
  destruct rt. reflexivity.
Qed.

Lemma call_log_returns l logger rt level message data exception :
  objects rt !! l = Some logger -> message <> "" ->
  exists rt',
    call_method_of l (log uuid4 utcnow_isoformat format_exc level message data exception) rt
    = (Return tt, rt').
Proof.
  intros Hobj Hmsg. unfold call_method_of. rewrite Hobj.
  destruct (log_builds_and_routes uuid4 utcnow_isoformat format_exc logger (world rt)
              level message data exception Hmsg) as (entry & _ & _ & _ & _ & Hlog).
  destruct (route_returns (config logger) entry (logger, count_created (world rt)))
    as ([logger' w'] & Hret).
  rewrite Hlog, Hret. eexists. reflexivity.
Qed.

(** X23: [emit] of the [logging] handler never raises. A record whose
    formatted message is empty, or whose formatting fails, is dropped and
    the process is left as it was; any other record is logged on the
    handler's logger with the converted level, the extracted data and the
    exception of [exc_info]. *)
Theorem handler_emit_never_raises (format : LogRecord -> Res string)
    (self : NeuralLogHandler.Handler) (record : LogRecord) (rt : Runtime) logger :
  objects rt !! NeuralLogHandler.logger self = Some logger ->
  (exists rt',
     NeuralLogHandler.emit uuid4 utcnow_isoformat format_exc format self record rt
     = (Return tt, rt'))
  /\ (format record = Return "" \/ (exists e, format record = Raise e) ->
      NeuralLogHandler.emit uuid4 utcnow_isoformat format_exc format self record rt
      = (Return tt, rt))
  /\ (forall message, format record = Return message -> message <> "" ->
      NeuralLogHandler.emit uuid4 utcnow_isoformat format_exc format self record rt
      = call_method_of (NeuralLogHandler.logger self)
          (log uuid4 utcnow_isoformat format_exc
             (NeuralLogHandler._convert_level (rec_levelno record)) message
             (Some (NeuralLogHandler._extract_data record))
             (match rec_exc_info record with Some exc => exc | None => None end)) rt).
Proof.
  intros Hobj. split; [|split].
  - unfold NeuralLogHandler.emit, try_except.
    match goal with |- context [match ?x with _ => _ end] => destruct x as [[[]|e] rt'] end;
      eexists; reflexivity.
  - intros Hfmt. unfold NeuralLogHandler.emit, try_except, bind.
    destruct Hfmt as [Hfmt|[e Hfmt]]; rewrite Hfmt; [|reflexivity].
    rewrite (call_method_of_raise _ _ logger rt
               (Exn ValueError "Message cannot be empty" None) Hobj); reflexivity.
  - intros message Hfmt Hmsg. unfold NeuralLogHandler.emit, try_except, bind. rewrite Hfmt.
    destruct (call_log_returns (NeuralLogHandler.logger self) logger rt
                (NeuralLogHandler._convert_level (rec_levelno record)) message
                (Some (NeuralLogHandler._extract_data record))
                (match rec_exc_info record with Some exc => exc | None => None end)
                Hobj Hmsg) as (rt' & Hret).
    rewrite Hret. reflexivity.
Qed.

(** X24: [__call__] of the Loguru sink has no guard: a record with an empty
    message raises the [ValueError] of [log] to the caller and leaves the
    process as it was; any other record is logged and the call
    returns. *)
Theorem sink_call_raises_for_empty_message
    (self : NeuralLogSink.Sink) (record : LoguruRecord) (rt : Runtime) logger :
  objects rt !! NeuralLogSink.logger self = Some logger ->
  (lr_message record = "" ->
   NeuralLogSink.call uuid4 utcnow_isoformat format_exc self record rt
   = (Raise (Exn ValueError "Message cannot be empty" None), rt))
  /\ (lr_message record <> "" ->
      exists rt',
        NeuralLogSink.call uuid4 utcnow_isoformat format_exc self record rt
        = (Return tt, rt')).
Proof.
  intros Hobj. unfold NeuralLogSink.call. split.
  - intros Hempty. rewrite Hempty.
    apply (call_method_of_raise _ _ logger rt _ Hobj). reflexivity.
  - intros Hmsg. apply (call_log_returns _ logger); assumption.
Qed.


(** X26: no installation lets a [NeuralLogSink] be built. With Loguru
    installed the module cannot be imported: its body reads
    [loguru.Message], which raises an [AttributeError] that the
    [except ImportError] around it does not catch, and this ends the
    import of the [adapters] package as well. Without Loguru the module
    is imported with [LOGURU_AVAILABLE = False], the package exports
    both adapters, and [__init__] raises an [ImportError] and changes
    nothing. *)
Theorem sink_init_needs_loguru (loguru_installed : bool) (rt : Runtime) (name : string)
    (url ns key : option string) (async : bool) (size interval_ms : Z) :
  (loguru_installed = true ->
   NeuralLogSink.import_module loguru_installed
   = Raise (Exn (OtherException "AttributeError")
              "module 'loguru' has no attribute 'Message'" None)
   /\ adapters_import loguru_installed
      = Raise (Exn (OtherException "AttributeError")
                 "module 'loguru' has no attribute 'Message'" None))
  /\ (loguru_installed = false ->
      NeuralLogSink.import_module loguru_installed = Return false
      /\ adapters_import loguru_installed = Return ["NeuralLogHandler"; "NeuralLogSink"])
  /\ (forall available,
        NeuralLogSink.import_module loguru_installed = Return available ->
        NeuralLogSink.init session_request available name url ns key async size interval_ms rt
        = (Raise (Exn (OtherException "ImportError")
                    "Loguru is not installed. Please install it with 'pip install loguru'."
                    None), rt))
  /\ (exists e,
        NeuralLogSink.import_and_init session_request loguru_installed
          name url ns key async size interval_ms rt
        = (Raise e, rt)).
Proof.
  split; [|split; [|split]].
  - intros ->. split; reflexivity.
  - intros ->. split; reflexivity.
  - intros available Himport. destruct loguru_installed; [discriminate|].
    injection Himport as <-. reflexivity.
  - destruct loguru_installed; eexists; reflexivity.
Qed.

End AdapterProperties.
(** ** The exception record and the timer *)

Lemma ExceptionInfo_init_chain format_exc (n : nat) : forall e,
  (length (cause_chain e) <= n)%nat ->
  map (fun i => (info_type i, info_message i)) (info_chain (ExceptionInfo_init format_exc e))
  = map (fun c => (class_name (exc_cls c), exc_msg c)) (cause_chain e)
  /\ Forall (fun i => info_stack_trace i = format_exc)
       (info_chain (ExceptionInfo_init format_exc e)).
Proof.
  induction n as [|n IH]; intros [c m cause] Hn; [simpl in Hn; lia|].
  destruct cause as [inner|]; simpl.
  - simpl in Hn. destruct (IH inner ltac:(lia)) as [Hmap Hall].
    split; [f_equal; exact Hmap|]. constructor; [reflexivity|exact Hall].
  - split; [reflexivity|]. constructor; [reflexivity|constructor].
Qed.

(** X27: the record built from an exception follows its chain of causes:
    it has one level per exception of the chain, with that exception's
    class name and message, and every level carries the same stack trace
    text, the one [traceback.format_exc()] gave when the entry was
    built. *)
Theorem exception_record_follows_causes (format_exc : string) (e : exn) :
  map (fun i => (info_type i, info_message i)) (info_chain (ExceptionInfo_init format_exc e))
  = map (fun c => (class_name (exc_cls c), exc_msg c)) (cause_chain e)
  /\ Forall (fun i => info_stack_trace i = format_exc)
       (info_chain (ExceptionInfo_init format_exc e))
  /\ length (info_chain (ExceptionInfo_init format_exc e)) = length (cause_chain e).
Proof.
  destruct (ExceptionInfo_init_chain format_exc _ e (Nat.le_refl _)) as [Hmap Hall].
  split; [exact Hmap|]. split; [exact Hall|].
  apply (f_equal length) in Hmap. rewrite !length_map in Hmap. exact Hmap.
Qed.

Section Timer.

Context {platform : Platform}.


End Timer.
(** ** The properties above at concrete inputs *)

Section Scenarios.

#[local] Existing Instance test_platform.

Lemma send_makes_no_attempt_when_retries_negative_witness :
  send always_down (HttpClient_init negative_retries_config) "POST" app_url None []
  = (Raise (Exn TypeError "exceptions must derive from BaseException" None), []).
Proof.
  apply (send_makes_no_attempt_when_retries_negative always_down
           (HttpClient_init negative_retries_config) "POST" app_url None []).
  reflexivity.
Defined.

Lemma send_returns_first_response_witness :
  send no_content_server default_client "POST" app_url None []
  = (Return (JObj ∅), [Requested (the_request default_client "POST" app_url None)]).
Proof.
  destruct (send_returns_first_response no_content_server default_client "POST" app_url None []
              no_content_response) as [H _].
  - vm_compute. discriminate.
  - vm_compute. reflexivity.
  - reflexivity.
  - reflexivity.
  - apply H. reflexivity.
Defined.

Lemma send_retries_every_error_status_witness :
  exists io',
    send not_found_server default_client "POST" app_url None []
    = (Raise (Exn HTTPError
                "404 Client Error: Not Found for url: http://localhost:3030/logs/app" None),
       io')
    /\ length (issued io') = 4%nat.
Proof.
  destruct (send_retries_every_error_status not_found_server default_client
              "POST" app_url None [] (fun _ => not_found_response)) as (io' & Hrun & Hiss).
  - exact default_policy_runs.
  - intros k _. split; reflexivity.
  - exists io'. split; [exact Hrun|]. rewrite Hiss. reflexivity.
Defined.

Lemma send_propagates_other_exceptions_witness :
  send broken_session default_client "POST" app_url None []
  = (Raise e_runtime, [Requested (the_request default_client "POST" app_url None)]).
Proof.
  apply (send_propagates_other_exceptions broken_session default_client
           "POST" app_url None [] 0 (fun _ => e_down) e_runtime).
  - vm_compute. reflexivity.
  - intros n Hn. simpl in Hn. lia.
  - vm_compute. discriminate.
  - intros k Hk. lia.
  - reflexivity.
  - reflexivity.
Defined.

Lemma send_total_backoff_witness :
  exists rest,
    snd (send always_down default_client "POST" app_url None []) = rest
    /\ (total_delay (slept rest) == Qmake 7000 1000)%Q.
Proof.
  destruct (send_total_backoff always_down default_client "POST" app_url None []
              (fun _ => e_down)) as (rest & Hrun & Hsum).
  - exact default_policy_runs.
  - intros k _. reflexivity.
  - exists rest. split; [exact Hrun|exact Hsum].
Defined.

(** A first delay of 10^10 seconds: [time.sleep] raises, and the call
    ends after its first request. *)
Lemma send_stops_at_refused_delay_witness :
  send always_down (HttpClient_init overlong_backoff_config)
    "POST" "http://localhost:3030/logs/app" None []
  = (Raise (Exn OverflowError "timestamp too large to convert to C _PyTime_t" None),
     [Requested (the_request (HttpClient_init overlong_backoff_config)
                   "POST" "http://localhost:3030/logs/app" None)]).
Proof.
  apply (send_stops_at_refused_delay always_down (HttpClient_init overlong_backoff_config)
           "POST" "http://localhost:3030/logs/app" None [] 0 (fun _ => e_down)).
  - vm_compute. reflexivity.
  - intros n Hn. simpl in Hn. lia.
  - vm_compute. discriminate.
  - intros k _. reflexivity.
  - right. split; vm_compute; reflexivity.
Defined.

Lemma repeated_flush_delivers_queue_in_order_witness :
  exists batches w',
    repeat_call 3 _send_batch
      (test_logger batch_config accepting_client [entry1; entry2; entry3], initial_world)
    = (Return tt, (test_logger batch_config accepting_client [], w'))
    /\ concat batches = [entry1; entry2; entry3]
    /\ length (calls w') = length batches.
Proof.
  destruct (repeated_flush_delivers_queue_in_order 3
              (test_logger batch_config accepting_client [entry1; entry2; entry3])
              initial_world) as (batches & w' & Hrun & _ & Hcat & _ & Hsent).
  - reflexivity.
  - simpl. lia.
  - exists batches, w'. split; [exact Hrun|]. split; [exact Hcat|].
    apply Hsent. intros entry Hin. simpl in Hin.
    repeat (apply elem_of_cons in Hin as [->|Hin]; [eexists; vm_compute; reflexivity|]).
    apply elem_of_nil in Hin. contradiction.
Defined.

Lemma log_keeps_queue_below_batch_size_witness :
  exists self' w' body,
    log test_uuid4 test_now test_format_exc INFO "Message 2" None None
      (test_logger batch_config accepting_client [entry1], initial_world)
    = (Return tt, (self', w'))
    /\ batch_queue self' = []
    /\ calls w' = [mkSendCall "POST" "https://logs.example.com/test/logs/test-logger/batch"
                     (Some body)].
Proof.
  destruct (log_keeps_queue_below_batch_size test_uuid4 test_now test_format_exc
              (test_logger batch_config accepting_client [entry1]) initial_world
              INFO "Message 2" None None)
    as (entry & self' & w' & Hrun & Hentry & _ & _ & _ & Hfull).
  - discriminate.
  - reflexivity.
  - reflexivity.
  - reflexivity.
  - destruct Hfull as (Hqueue & Hsent & _); [reflexivity|].
    injection Hentry as Hentry.
    exists self', w'. eexists. split; [exact Hrun|]. split; [exact Hqueue|].
    apply Hsent. rewrite <- Hentry. vm_compute. reflexivity.
Defined.

Lemma failed_batch_is_dropped_witness :
  (exists w',
     _send_batch (test_logger batch_config failing_client [entry1], initial_world)
     = (Return tt, (test_logger batch_config failing_client [], w'))
     /\ io w' = [])
  /\ (exists w',
        _send_batch (test_logger batch_config accepting_client [dated_entry], initial_world)
        = (Return tt, (test_logger batch_config accepting_client [], w'))
        /\ calls w' = [] /\ io w' = []).
Proof.
  split.
  - destruct (failed_batch_is_dropped (test_logger batch_config failing_client [entry1])
                initial_world e_down []) as (w' & Hrun & Hio & _).
    + reflexivity.
    + discriminate.
    + right. eexists. split; [vm_compute; reflexivity|reflexivity].
    + exists w'. split; [exact Hrun|exact Hio].
  - destruct (failed_batch_is_dropped (test_logger batch_config accepting_client [dated_entry])
                initial_world (not_serializable "datetime") []) as (w' & Hrun & Hio & _).
    + reflexivity.
    + discriminate.
    + left. split; [vm_compute; reflexivity|reflexivity].
    + exists w'. split; [exact Hrun|]. split; [|exact Hio].
      vm_compute in Hrun. injection Hrun as <-. reflexivity.
Defined.

Lemma context_set_is_context_logged_witness :
  exists copy w1 entry,
    set_context (Some 2%positive)
      (test_logger sync_config accepting_client [], world_with_caller_dict)
    = (Return tt, (with_context copy (test_logger sync_config accepting_client []), w1))
    /\ log test_uuid4 test_now test_format_exc INFO "Test message" None None
         (with_context copy (test_logger sync_config accepting_client []),
          dict_mutate 2%positive set_env w1)
       = route sync_config entry
           (with_context copy (test_logger sync_config accepting_client []),
            count_created (dict_mutate 2%positive set_env w1))
    /\ le_data entry = caller_dict.
Proof.
  destruct (context_set_is_context_logged test_uuid4 test_now test_format_exc
              (test_logger sync_config accepting_client []) world_with_caller_dict
              2%positive caller_dict [set_env] INFO "Test message" None None)
    as (copy & w1 & entry & Hset & Hlog & Hdata & _).
  - reflexivity.
  - discriminate.
  - exists copy, w1, entry. split; [exact Hset|]. split; [exact Hlog|].
    rewrite Hdata. vm_compute. reflexivity.
Defined.

Lemma batch_url_extends_log_url_witness :
  _get_log_url (test_logger sync_config accepting_client [])
  = "https://logs.example.com/test/logs/test-logger"
  /\ _get_log_url (test_logger default_config accepting_client [])
     = "http://localhost:3030/logs/test-logger".
Proof.
  split.
  - destruct (batch_url_extends_log_url (test_logger sync_config accepting_client []))
      as (_ & _ & H).
    apply H; discriminate.
  - destruct (batch_url_extends_log_url (test_logger default_config accepting_client []))
      as (_ & H & _).
    apply H. right. reflexivity.
Defined.

Lemma runtime_with_logger_wf : registry_wf runtime_with_logger.
Proof.
  intros name l H. simpl in H. apply lookup_singleton_Some in H as [<- <-].
  exists app_logger. split; reflexivity.
Qed.

Lemma LogEntry_to_dict_loses_nothing_witness :
  LogEntry_to_dict entry1 !! "message" = Some (JStr "Message 1")
  /\ LogEntry_to_dict entry1 !! "exception" = None.
Proof.
  destruct (LogEntry_to_dict_loses_nothing entry1 entry1) as (_ & _ & _ & _ & Hmsg & _ & Hexc).
  split; [exact Hmsg|]. apply Hexc. reflexivity.
Defined.

Lemma registry_stays_well_formed_witness :
  registry_wf (snd (get_logger always_down "app" initial_runtime))
  /\ registry_wf (snd (set_global_context (Some 2%positive) runtime_with_logger)).
Proof.
  destruct (registry_stays_well_formed always_down) as (Hinit & _ & Hget & Hset & _).
  split.
  - apply Hget. exact Hinit.
  - apply Hset. exact runtime_with_logger_wf.
Defined.


Lemma set_global_context_reaches_every_logger_witness :
  exists rt' logger,
    set_global_context (Some 2%positive) runtime_with_logger = (Return tt, rt')
    /\ objects rt' !! 1%positive = Some logger
    /\ context logger <> 2%positive
    /\ read_dict (context logger) (world rt') = caller_dict.
Proof.
  destruct (set_global_context_reaches_every_logger runtime_with_logger (Some 2%positive)
              runtime_with_logger_wf) as (_ & H).
  destruct (H 2%positive caller_dict eq_refl eq_refl) as (rt' & Hrun & _ & _ & _ & _ & Hall).
  destruct (Hall "app" 1%positive eq_refl) as (logger & Hobj & _ & Hown & Hctx).
  exists rt', logger. split; [exact Hrun|]. split; [exact Hobj|]. split; [exact Hown|exact Hctx].
Defined.

Lemma flush_all_empties_queues_witness :
  exists rt' logger,
    flush_all runtime_with_logger = (Return tt, rt')
    /\ objects rt' !! 1%positive = Some logger
    /\ batch_queue logger = [].
Proof.
  destruct (flush_all_empties_queues runtime_with_logger runtime_with_logger_wf)
    as (rt' & Hrun & _ & Hall).
  - intros name l logger Hl Hobj. simpl in Hl, Hobj.
    apply lookup_singleton_Some in Hl as [<- <-].
    rewrite lookup_singleton_eq in Hobj. injection Hobj as <-.
    right. split; [reflexivity|]. split; [reflexivity|]. simpl. lia.
  - destruct (Hall "app" 1%positive eq_refl) as (logger & Hobj & _ & Hqueue).
    exists rt', logger. split; [exact Hrun|]. split; [exact Hobj|exact Hqueue].
Defined.


Lemma handler_convert_level_monotone_witness :
  severity (NeuralLogHandler._convert_level 25) <= severity (NeuralLogHandler._convert_level 35)
  /\ NeuralLogHandler._convert_level 5 = DEBUG.
Proof.
  destruct (handler_convert_level_monotone 25 35) as (Hmono & _).
  destruct (handler_convert_level_monotone 5 5) as (_ & _ & _ & _ & _ & _ & Hlow).
  split; [apply Hmono; lia|apply Hlow; reflexivity].
Defined.

Lemma sink_convert_level_by_name_witness :
  NeuralLogSink._convert_level "WARNING" = WARNING
  /\ NeuralLogSink._convert_level "Critical" = FATAL
  /\ NeuralLogSink._convert_level "SUCCESS" = DEBUG.
Proof.
  split; [|split].
  - destruct (sink_convert_level_by_name "WARNING") as (_ & H & _).
    apply (H WARNING). reflexivity.
  - destruct (sink_convert_level_by_name "Critical") as (_ & _ & H & _).
    apply H. reflexivity.
  - destruct (sink_convert_level_by_name "SUCCESS") as (_ & _ & _ & H).
    apply H. vm_compute. intros Hin.
    repeat (apply elem_of_cons in Hin as [Heq|Hin]; [discriminate Heq|]).
    apply elem_of_nil in Hin. exact Hin.
Defined.

Lemma handler_emit_never_raises_witness :
  NeuralLogHandler.emit test_uuid4 test_now test_format_exc (fun _ => Return "")
    (NeuralLogHandler.mkHandler 1%positive 0) info_record runtime_with_logger
  = (Return tt, runtime_with_logger)
  /\ exists rt',
       NeuralLogHandler.emit test_uuid4 test_now test_format_exc
         (fun _ => Return "User logged in")
         (NeuralLogHandler.mkHandler 1%positive 0) info_record runtime_with_logger
       = (Return tt, rt').
Proof.
  split.
  - destruct (handler_emit_never_raises test_uuid4 test_now test_format_exc
                (fun _ => Return "") (NeuralLogHandler.mkHandler 1%positive 0)
                info_record runtime_with_logger app_logger eq_refl) as (_ & H & _).
    apply H. left. reflexivity.
  - destruct (handler_emit_never_raises test_uuid4 test_now test_format_exc
                (fun _ => Return "User logged in") (NeuralLogHandler.mkHandler 1%positive 0)
                info_record runtime_with_logger app_logger eq_refl) as (H & _).
    exact H.
Defined.

Lemma sink_call_raises_for_empty_message_witness :
  NeuralLogSink.call test_uuid4 test_now test_format_exc (NeuralLogSink.mkSink 1%positive)
    (loguru_record "") runtime_with_logger
  = (Raise (Exn ValueError "Message cannot be empty" None), runtime_with_logger)
  /\ exists rt',
       NeuralLogSink.call test_uuid4 test_now test_format_exc (NeuralLogSink.mkSink 1%positive)
         (loguru_record "Hello, world!") runtime_with_logger
       = (Return tt, rt').
Proof.
  split.
  - destruct (sink_call_raises_for_empty_message test_uuid4 test_now test_format_exc
                (NeuralLogSink.mkSink 1%positive) (loguru_record "")
                runtime_with_logger app_logger eq_refl) as (H & _).
    apply H. reflexivity.
  - destruct (sink_call_raises_for_empty_message test_uuid4 test_now test_format_exc
                (NeuralLogSink.mkSink 1%positive) (loguru_record "Hello, world!")
                runtime_with_logger app_logger eq_refl) as (_ & H).
    apply H. discriminate.
Defined.


Lemma sink_init_needs_loguru_witness :
  NeuralLogSink.import_module true
  = Raise (Exn (OtherException "AttributeError")
             "module 'loguru' has no attribute 'Message'" None)
  /\ NeuralLogSink.import_module false = Return false
  /\ NeuralLogSink.init always_down false "app" None None None true 100 5000 runtime_with_logger
     = (Raise (Exn (OtherException "ImportError")
                 "Loguru is not installed. Please install it with 'pip install loguru'."
                 None), runtime_with_logger).
Proof.
  destruct (sink_init_needs_loguru always_down true runtime_with_logger "app"
              None None None true 100 5000) as (Hinstalled & _ & _ & _).
  destruct (sink_init_needs_loguru always_down false runtime_with_logger "app"
              None None None true 100 5000) as (_ & Hmissing & Hinit & _).
  split; [exact (proj1 (Hinstalled eq_refl))|].
  split; [exact (proj1 (Hmissing eq_refl))|].
  exact (Hinit false (proj1 (Hmissing eq_refl))).
Defined.


Lemma session_headers_set_witness :
  ci_get "x-api-key" (session_headers (HttpClient_init sync_config)) = Some "test-api-key"
  /\ ci_get "X-API-Key" (session_headers (HttpClient_init default_config)) = None
  /\ ci_get "ACCEPT" (session_headers (HttpClient_init default_config))
     = Some "application/json"
  /\ ci_get "User-Agent" (session_headers (HttpClient_init default_config))
     = Some "python-requests/2.31.0"
  /\ ci_get "Content-Type" (session_headers (HttpClient_init plain_text_config))
     = Some "text/plain".
Proof.
  assert (Hnone : forall name k, str_lower k = str_lower name ->
                                 (∅ : gmap string string) !! k = None).
  { intros name k _. apply lookup_empty. }
  split; [|split; [|split; [|split]]].
  - exact (proj2 (session_headers_set sync_config "x-api-key") (Hnone _)).
  - exact (proj2 (session_headers_set default_config "X-API-Key") (Hnone _)).
  - exact (proj2 (session_headers_set default_config "ACCEPT") (Hnone _)).
  - exact (proj2 (session_headers_set default_config "User-Agent") (Hnone _)).
  - apply (proj1 (session_headers_set plain_text_config "Content-Type")
             "content-type" "text/plain").
    + reflexivity.
    + reflexivity.
    + intros k' _ Hin. destruct (decide (k' = "content-type")) as [->|Hne]; [reflexivity|].
      exfalso. apply Hin. apply lookup_singleton_ne. congruence.
Defined.

End Scenarios.
